(** * Shotcraft inventory: the configuration, the loader, the calculator,
    the writeback and the page of [app.py], embedded and checked against the
    specification.

    Numbers.  A pandas float64 cell is modelled by [num]: an exact rational
    for a finite value, and the three non-finite values that the code's
    control flow depends on ([NaN] is pandas' missing-value marker, the
    infinities make [math.floor] raise).  Rounding, overflow and underflow of
    finite arithmetic, and the sign of zero, are outside this model;
    integer-typed columns are identified with their float64 image, which is
    what every arithmetic operation of [compute] converts them to.

    Frames.  A frame is a list of rows; a cell is text or a number.  The
    exceptions that pandas and Python raise on the calls [app.py] makes are
    part of the model: [math.floor] on a non-finite float, [merge] on key
    columns of different kinds, [sort_values] on a column mixing text and
    numbers, [pd.to_numeric] on a repeated column name.  Results are in the
    error monad [result].

    Parameters.  How pandas reads a number from text, how the sheet
    displays a number, which characters [str.strip] removes, and the two
    worksheet names come from outside the repository; they are the variables
    of section [App].

    Configuration.  Secrets, query parameters and the session state are
    finite maps from text to text.  The credentials of [get_client] and the
    workbook of [download_excel] are the work of the libraries they call and
    are not modelled. *)

From Stdlib Require Import QArith Qcanon Qround Ascii String.
From stdpp Require Import base decidable option list sorting numbers strings pretty gmap.

Local Open Scope Z_scope.

(** ** Numbers *)

Inductive num : Type :=
  | Fin (q : Qc)
  | PInf
  | NInf
  | NaN.

#[global] Instance num_eq_dec : EqDecision num.
Proof. solve_decision. Defined.

Definition zero : num := Fin 0%Qc.

Definition is_nan (x : num) : bool :=
  match x with NaN => true | _ => false end.

Definition is_finite (x : num) : bool :=
  match x with Fin _ => true | _ => false end.

(** Sign of a rational: [Lt] negative, [Eq] zero, [Gt] positive. *)
Definition Qc_sign (q : Qc) : comparison := (q ?= 0)%Qc.

(** [x * y] on float64. *)
Definition num_mul (x y : num) : num :=
  match x, y with
  | NaN, _ | _, NaN => NaN
  | Fin a, Fin b => Fin (a * b)%Qc
  | Fin a, PInf | PInf, Fin a =>
      match Qc_sign a with Eq => NaN | Gt => PInf | Lt => NInf end
  | Fin a, NInf | NInf, Fin a =>
      match Qc_sign a with Eq => NaN | Gt => NInf | Lt => PInf end
  | PInf, PInf | NInf, NInf => PInf
  | PInf, NInf | NInf, PInf => NInf
  end.

(** [x - y] on float64. *)
Definition num_sub (x y : num) : num :=
  match x, y with
  | NaN, _ | _, NaN => NaN
  | Fin a, Fin b => Fin (a - b)%Qc
  | Fin _, PInf => NInf
  | Fin _, NInf => PInf
  | PInf, PInf | NInf, NInf => NaN
  | PInf, _ => PInf
  | NInf, _ => NInf
  end.

(** [x / y] on float64 as numpy computes it: a zero divisor gives an infinity
    or [NaN], never an exception. *)
Definition num_div (x y : num) : num :=
  match x, y with
  | NaN, _ | _, NaN => NaN
  | Fin a, Fin b =>
      match Qc_sign b with
      | Eq => match Qc_sign a with Eq => NaN | Gt => PInf | Lt => NInf end
      | _ => Fin (a / b)%Qc
      end
  | Fin _, (PInf | NInf) => zero
  | PInf, Fin b => match Qc_sign b with Lt => NInf | _ => PInf end
  | NInf, Fin b => match Qc_sign b with Lt => PInf | _ => NInf end
  | (PInf | NInf), (PInf | NInf) => NaN
  end.

(** [x < y] on float64: false as soon as one side is [NaN]. *)
Definition num_ltb (x y : num) : bool :=
  match x, y with
  | NaN, _ | _, NaN => false
  | Fin a, Fin b => bool_decide (a < b)%Qc
  | NInf, (Fin _ | PInf) => true
  | Fin _, PInf => true
  | _, _ => false
  end.

(** [x <= y] for two numbers that are not [NaN]. *)
Definition num_le (x y : num) : Prop :=
  is_nan x = false ∧ is_nan y = false ∧ num_ltb y x = false.

(** ** Cells and exceptions *)

(** A DataFrame cell: text (object dtype) or a float64 number.  A missing
    value is the number [NaN], as in pandas. *)
Inductive cell : Type :=
  | CStr (s : string)
  | CNum (x : num).

#[global] Instance cell_eq_dec : EqDecision cell.
Proof. solve_decision. Defined.

Definition is_number (c : cell) : bool :=
  match c with CNum _ => true | CStr _ => false end.

Definition is_text (c : cell) : bool :=
  match c with CStr _ => true | CNum _ => false end.

(** [pd.isnull] on a cell. *)
Definition is_null (c : cell) : bool :=
  match c with CNum NaN => true | _ => false end.

(** Why [st.stop()] halted the script in [load_data]. *)
Inductive stop_reason : Type :=
  | FormulaWorksheetMissing
  | InventoryWorksheetMissing
  | SchemaError.

Inductive error : Type :=
  | ValueError
  | TypeError
  | OverflowError
  | WorksheetNotFound
  | Stopped (why : stop_reason).

Inductive result (A : Type) : Type :=
  | Ok (a : A)
  | Raise (e : error).
Arguments Ok {A} a.
Arguments Raise {A} e.

#[global] Instance result_ret : MRet result := λ A, Ok.

#[global] Instance result_bind : MBind result := λ A B k r,
  match r with
  | Ok a => k a
  | Raise e => Raise e
  end.

(** [math.floor]: an integer for a finite float, [OverflowError] for an
    infinity, [ValueError] for [NaN]. *)
Definition math_floor (x : num) : result Z :=
  match x with
  | Fin q => Ok (Qfloor (this q))
  | PInf | NInf => Raise OverflowError
  | NaN => Raise ValueError
  end.

(** ** Frames *)

(** A row of [comps]: the FORMULA columns. *)
Module Comps.
Record row : Type := mk { Component : cell; Per_Case : cell; UOM : cell }.
End Comps.

(** A row of [onhand]: the INVENTORY columns. *)
Module OnHand.
Record row : Type := mk { Component : cell; On_Hand : cell }.
End OnHand.

(** The second argument of [compute].  Line 173 of [app.py] provides for a
    frame without an On_Hand column; [KeysFrame] is that frame. *)
Inductive onhand_frame : Type :=
  | OnHandFrame (rows : list OnHand.row)
  | KeysFrame (keys : list cell).

(** A row of the six-column frame that [compute] builds. *)
Module Inv.
Record row : Type := mk {
  Component : cell;
  UOM : cell;
  On_Hand : num;
  Per_Case : num;
  Required : num;
  Remaining : num
}.
End Inv.

(** The rows of a [merge] before the numeric columns are coerced: the left
    row and the On_Hand cell ([None] when the merged frame has no On_Hand
    column at all). *)
Abbreviation merged_row := (Comps.row * option cell)%type.

(** A row of the grid edited in the page, the argument of [write_onhand]. *)
Module Edited.
Record row : Type := mk {
  Component : cell;
  UOM : cell;
  On_Hand : cell;
  Per_Case : cell
}.
End Edited.

(** A frame as [read_ws_df] builds it: the columns in order, each with its
    name and its cells. *)
Abbreviation frame := (list (string * list cell)).

(** ** The remote table store *)

(** A worksheet cell holds text or a number; a worksheet is the grid of its
    used range, row by row; the spreadsheet maps worksheet names to
    worksheets. *)
Inductive scell : Type :=
  | SText (s : string)
  | SNumber (x : num).

Abbreviation worksheet := (list (list scell)).

(** ** An instance of the parameters, for the examples *)

(** The development is parametric in how pandas reads a number and in how
    the sheet displays one.  The examples run it on integers in decimal
    notation, with the empty string read as a missing value. *)
Definition digit_of (a : ascii) : option Z :=
  let n := Z.of_N (Ascii.N_of_ascii a) in
  if bool_decide (48 ≤ n ≤ 57) then Some (n - 48) else None.

Fixpoint digits_value (acc : Z) (s : string) : option Z :=
  match s with
  | EmptyString => Some acc
  | String a s' =>
      match digit_of a with
      | Some d => digits_value (10 * acc + d) s'
      | None => None
      end
  end.

Definition example_parse_float (s : string) : option num :=
  match s with
  | EmptyString => Some NaN
  | String "-" (String a s') =>
      (λ n, Fin (Qc_of_Z (- n))) <$> digits_value 0 (String a s')
  | _ =>
      if bool_decide (s = "inf") then Some PInf
      else (λ n, Fin (Qc_of_Z n)) <$> digits_value 0 s
  end.

Definition example_render_number (x : num) : string :=
  match x with
  | Fin q =>
      if bool_decide (Qden (this q) = 1%positive) then pretty (Qnum (this q))
      else "#VALUE!"
  | PInf => "inf"
  | NInf => "-inf"
  | NaN => ""
  end.

(** The components and stock of the specification's examples (A uses 2 per
    case with 10 on hand, B uses 5 with 30), with one Per_Case and one
    On_Hand left as text. *)
Definition example_comps : list Comps.row :=
  [Comps.mk (CStr "A") (CNum (Fin (Qc_of_Z 2))) (CStr "kg");
   Comps.mk (CStr "B") (CStr "5") (CStr "l")].

Definition example_onhand : onhand_frame :=
  OnHandFrame [OnHand.mk (CStr "B") (CNum (Fin (Qc_of_Z 30)));
               OnHand.mk (CStr "A") (CStr "10")].

(** A spreadsheet at first-time setup: a FORMULA sheet without UOM, and an
    INVENTORY sheet that has neither of its columns yet. *)
Definition example_formula_sheet : worksheet :=
  [[SText "Component"; SText "Per_Case"];
   [SText "A"; SNumber (Fin (Qc_of_Z 2))];
   [SText "B"; SText "5"]].

Definition example_inventory_sheet : worksheet :=
  [[SText "Notes"]; [SText "first setup"]].

Definition example_store : gmap string worksheet :=
  {[ "FORMULA" := example_formula_sheet; "INVENTORY" := example_inventory_sheet ]}.

(** An edited grid whose second On_Hand is not a number. *)
Definition example_edited : list Edited.row :=
  [Edited.mk (CStr "A") (CStr "kg") (CNum (Fin (Qc_of_Z 10))) (CNum (Fin (Qc_of_Z 2)));
   Edited.mk (CStr "B") (CStr "l") (CStr "oops") (CNum (Fin (Qc_of_Z 5)))].

(** The stock of [example_onhand], as [load_data] returns it. *)
Definition example_stock : list OnHand.row :=
  [OnHand.mk (CStr "B") (CNum (Fin (Qc_of_Z 30)));
   OnHand.mk (CStr "A") (CStr "10")].

(** A spreadsheet whose components are numbered in FORMULA and named in
    INVENTORY. *)
Definition example_numbered_store : gmap string worksheet :=
  {[ "FORMULA" := [[SText "Component"; SText "Per_Case"];
                   [SText "1"; SText "2"];
                   [SText "2"; SText "5"]];
     "INVENTORY" := [[SText "Component"; SText "On_Hand"];
                     [SText "A"; SText "10"]] ]}.

(** ** pandas operations used by [app.py] *)

Section App.

Local Set Default Proof Using "Type*".

(** How pandas reads a text cell as a number ([pd.to_numeric] on one
    string): [None] when the text is not numeric.  pandas is not part of
    the repository, so the parser is a parameter. *)
Variable parse_float : string → option num.

(** [pd.to_numeric(col, errors="coerce")] on one cell. *)
Definition to_numeric_coerce (c : cell) : num :=
  match c with
  | CNum x => x
  | CStr s => default NaN (parse_float s)
  end.

(** [.fillna(v)] on one number. *)
Definition fillna (v x : num) : num :=
  if is_nan x then v else x.

(** Lines 174 and 175: [pd.to_numeric(col, errors="coerce").fillna(0.0)]. *)
Definition coerce0 (c : cell) : num := fillna zero (to_numeric_coerce c).

(** [Series.min()]: the least value that is not [NaN]; [NaN] when there is
    none. *)
Definition num_min (x y : num) : num :=
  if is_nan x then y
  else if is_nan y then x
  else if num_ltb y x then y else x.

Definition series_min (xs : list num) : num := foldr num_min NaN xs.

(** pandas refuses ([ValueError]) to merge a text key column with a
    numeric one when both frames have rows. *)
Definition merge_keys_clash (lk rk : list cell) : bool :=
  match lk, rk with
  | [], _ | _, [] => false
  | _, _ => xorb (forallb is_number lk) (forallb is_number rk)
  end.

(** Key column and On_Hand cells of the right frame. *)
Definition right_keys (onhand : onhand_frame) : list cell :=
  match onhand with
  | OnHandFrame rows => OnHand.Component <$> rows
  | KeysFrame keys => keys
  end.

Definition right_rows (onhand : onhand_frame) : list (cell * option cell) :=
  match onhand with
  | OnHandFrame rows => (λ r, (OnHand.Component r, Some (OnHand.On_Hand r))) <$> rows
  | KeysFrame keys => (λ k, (k, None)) <$> keys
  end.

(** The On_Hand cell of a left row without a match. *)
Definition unmatched (onhand : onhand_frame) : option cell :=
  match onhand with
  | OnHandFrame _ => Some (CNum NaN)
  | KeysFrame _ => None
  end.

Definition matches (c : Comps.row) (onhand : onhand_frame) : list (cell * option cell) :=
  filter (λ r, r.1 = Comps.Component c) (right_rows onhand).

(** One left row of [comps.merge(onhand, on="Component", how="left")]: a
    row per matching right row, in the right frame's order, or one row
    with a missing On_Hand. *)
Definition merge_row (onhand : onhand_frame) (c : Comps.row) : list merged_row :=
  match matches c onhand with
  | [] => [(c, unmatched onhand)]
  | ms => (λ r, (c, r.2)) <$> ms
  end.

Definition merge_left (comps : list Comps.row) (onhand : onhand_frame)
  : result (list merged_row) :=
  if merge_keys_clash (Comps.Component <$> comps) (right_keys onhand)
  then Raise ValueError
  else Ok (comps ≫= merge_row onhand).

(** Lines 173 to 177: the On_Hand column is created as 0.0 when absent,
    both numeric columns are coerced and filled, Required and Remaining
    are computed. *)
Definition inventory_row (cases : num) (m : merged_row) : Inv.row :=
  let on_hand_cell := default (CNum zero) m.2 in
  let per_case := coerce0 (Comps.Per_Case m.1) in
  let on_hand := coerce0 on_hand_cell in
  let required := num_mul per_case cases in
  {| Inv.Component := Comps.Component m.1;
     Inv.UOM := Comps.UOM m.1;
     Inv.On_Hand := on_hand;
     Inv.Per_Case := per_case;
     Inv.Required := required;
     Inv.Remaining := num_sub on_hand required |}.

(** Order of [sort_values] on a key column: text by code point, numbers by
    value, missing values last. *)
Definition cell_le (a b : cell) : Prop :=
  match a, b with
  | CStr s, CStr t => String.le s t
  | CNum x, CNum y => is_nan y ∨ (¬ is_nan x ∧ ¬ num_ltb y x)
  | CStr _, CNum _ => True
  | CNum _, CStr _ => False
  end.

#[global] Instance cell_le_dec : RelDecision cell_le.
Proof. intros [s|x] [t|y]; simpl; apply _. Defined.

Definition row_le (r1 r2 : Inv.row) : Prop :=
  cell_le (Inv.Component r1) (Inv.Component r2).

#[global] Instance row_le_dec : RelDecision row_le.
Proof. intros r1 r2; unfold row_le; apply _. Defined.

(** Python cannot order text against a number: sorting a column that holds
    both (missing values apart) raises [TypeError]. *)
Definition mixed_kinds (col : list cell) : bool :=
  existsb is_text col && existsb (λ c, is_number c && negb (is_null c)) col.

Definition sort_values_Component (df : list Inv.row) : result (list Inv.row) :=
  if mixed_kinds (Inv.Component <$> df)
  then Raise TypeError
  else Ok (merge_sort row_le df).

(** ** The calculator: [compute], lines 171 to 187 *)

(** The frame [df] after line 177. *)
Definition compute_df (comps : list Comps.row) (onhand : onhand_frame) (cases : num)
  : result (list Inv.row) :=
  merge_left comps onhand ≫= λ df : list merged_row,
  Ok (inventory_row cases <$> df).

Definition is_candidate (r : Inv.row) : bool := num_ltb zero (Inv.Per_Case r).

Definition is_short (r : Inv.row) : bool := num_ltb (Inv.Remaining r) zero.

Definition ratio (r : Inv.row) : num := num_div (Inv.On_Hand r) (Inv.Per_Case r).

(** The frame [df] of a merge that did not raise. *)
Definition joined (comps : list Comps.row) (onhand : onhand_frame) (cases : num)
  : list Inv.row :=
  inventory_row cases <$> (comps ≫= merge_row onhand).

(** The On_Hand cell that a left row receives from its first match. *)
Definition on_hand_cell_of (onhand : onhand_frame) (c : Comps.row) : option cell :=
  match matches c onhand with
  | [] => unmatched onhand
  | r :: _ => r.2
  end.

(** Lines 179 to 183. *)
Definition max_sellable_of (df : list Inv.row) : result Z :=
  match filter is_candidate df with
  | [] => Ok 0
  | candidates => math_floor (series_min (ratio <$> candidates))
  end.

Record output : Type := mk_output {
  display : list Inv.row;
  max_sellable : Z;
  shortages : list Inv.row
}.

Definition compute (comps : list Comps.row) (onhand : onhand_frame) (cases : num)
  : result output :=
  compute_df comps onhand cases ≫= λ df : list Inv.row,
  max_sellable_of df ≫= λ max_sellable : Z,
  let shortages := filter is_short df in
  sort_values_Component df ≫= λ display : list Inv.row,
  Ok (mk_output display max_sellable shortages).

(** ** Google Sheets helpers *)

(** How the sheet displays a number: [get_all_values] returns the
    displayed text of every cell.  The sheet's formatting is outside the
    repository, so it is a parameter. *)
Variable render_number : num → string.

(** The worksheet names resolved by [resolve_ws_names]. *)
Variable FORMULA_WS INVENTORY_WS : string.

Definition render (c : scell) : string :=
  match c with
  | SText s => s
  | SNumber x => render_number x
  end.

(** gspread pads every row with empty strings to the widest row. *)
Definition fill_gaps (rows : list (list string)) : list (list string) :=
  let width := foldr Nat.max 0%nat (length <$> rows) in
  (λ row : list string, row ++ replicate (width - length row) "") <$> rows.

Definition get_all_values (ws : worksheet) : list (list string) :=
  fill_gaps ((λ row : list scell, render <$> row) <$> ws).

(** The first row, which [read_ws_df] takes as the column names, and the
    rows below it. *)
Definition header (ws : worksheet) : list string :=
  default [] (head (get_all_values ws)).

Definition data_rows (ws : worksheet) : list (list string) :=
  tail (get_all_values ws).

(** [pd.to_numeric(col, errors="ignore")] on a column of text: numbers
    when every cell is numeric, the column as it was otherwise. *)
Definition to_numeric_ignore (col : list string) : list cell :=
  match mapM parse_float col with
  | Some xs => CNum <$> xs
  | None => CStr <$> col
  end.

(** [pd.DataFrame(vals[1:], columns=vals[0])]. *)
Definition text_columns (header : list string) (data : list (list string))
  : list (string * list string) :=
  imap (λ j name, (name, (λ row : list string, nth j row "") <$> data)) header.

(** Lines 118 to 126.  With a repeated header name [df[c]] is a frame, on
    which [pd.to_numeric] raises [TypeError]. *)
Definition read_ws_df (ws : worksheet) : result frame :=
  match get_all_values ws with
  | [] => Ok []
  | header :: data =>
      if decide (NoDup header)
      then Ok (prod_map id to_numeric_ignore <$> text_columns header data)
      else Raise TypeError
  end.

Definition columns (df : frame) : list string := df.*1.

(** [df[name]]. *)
Fixpoint column (df : frame) (name : string) : list cell :=
  match df with
  | [] => []
  | (n, col) :: df' => if decide (n = name) then col else column df' name
  end.

Definition n_rows (df : frame) : nat :=
  match df with
  | [] => 0%nat
  | (_, col) :: _ => length col
  end.

Definition issubset (names : list string) (cols : list string) : bool :=
  forallb (λ n, bool_decide (n ∈ cols)) names.

Definition open_worksheet (sh : gmap string worksheet) (name : string)
  (otherwise : error) : result worksheet :=
  match sh !! name with
  | Some ws => Ok ws
  | None => Raise otherwise
  end.

(** Lines 152 and 153: the component rows, with an empty UOM when the
    FORMULA sheet has no UOM column. *)
Definition formula_comps (formula : frame) : list Comps.row :=
  let uom :=
    if bool_decide ("UOM" ∈ columns formula) then column formula "UOM"
    else replicate (n_rows formula) (CStr "") in
  zip_with (λ cp u, Comps.mk cp.1 cp.2 u)
    (zip (column formula "Component") (column formula "Per_Case")) uom.

(** Lines 155 to 159: the on-hand rows of the INVENTORY sheet, or a zero
    for every component when it lacks one of the two columns. *)
Definition inventory_onhand (comps : list Comps.row) (inv : frame)
  : list OnHand.row :=
  if issubset ["Component"; "On_Hand"] (columns inv)
  then zip_with OnHand.mk (column inv "Component") (column inv "On_Hand")
  else (λ c, OnHand.mk (Comps.Component c) (CNum zero)) <$> comps.

(** Lines 128 to 161. *)
Definition load_data (sh : gmap string worksheet)
  : result (list Comps.row * list OnHand.row) :=
  open_worksheet sh FORMULA_WS (Stopped FormulaWorksheetMissing) ≫= λ fws : worksheet,
  open_worksheet sh INVENTORY_WS (Stopped InventoryWorksheetMissing) ≫= λ iws : worksheet,
  read_ws_df fws ≫= λ formula : frame,
  read_ws_df iws ≫= λ inv : frame,
  if negb (issubset ["Component"; "Per_Case"] (columns formula))
  then Raise (Stopped SchemaError)
  else
    let comps := formula_comps formula in
    Ok (comps, inventory_onhand comps inv).

(** [ws.clear()]: no value is left. *)
Definition clear (ws : worksheet) : worksheet := [].

Fixpoint update_row (new old : list scell) : list scell :=
  match new, old with
  | [], _ => old
  | x :: new', [] => x :: new'
  | x :: new', _ :: old' => x :: update_row new' old'
  end.

(** [ws.update(values)]: the grid is written from the top left cell;
    cells outside it keep their value.  Failures of the remote call
    (network, quota, a payload that the API rejects) are outside the model:
    the store accepts the grid. *)
Fixpoint update (values ws : worksheet) : worksheet :=
  match values, ws with
  | [], _ => ws
  | row :: values', [] => row :: values'
  | row :: values', old :: ws' => update_row row old :: update values' ws'
  end.

(** A cell of [out.astype(object).where(pd.notnull(out), "")]. *)
Definition to_scell (c : cell) : scell :=
  match c with
  | CStr s => SText s
  | CNum x => if is_nan x then SText "" else SNumber x
  end.

(** Lines 165 to 167: the grid that [write_onhand] sends. *)
Definition onhand_values (edited_df : list Edited.row) : worksheet :=
  let out :=
    (λ r, (Edited.Component r, coerce0 (Edited.On_Hand r))) <$> edited_df in
  [SText "Component"; SText "On_Hand"]
    :: ((λ r, [to_scell r.1; to_scell (CNum r.2)]) <$> out).

(** Lines 163 to 169. *)
Definition write_onhand (sh : gmap string worksheet) (edited_df : list Edited.row)
  : result (gmap string worksheet) :=
  open_worksheet sh INVENTORY_WS WorksheetNotFound ≫= λ ws : worksheet,
  let values := onhand_values edited_df in
  let ws := clear ws in
  let ws := update values ws in
  Ok (<[INVENTORY_WS := ws]> sh).

(** ** The page: lines 218 to 251 *)

(** Lines 219, 220 and 223: the grid offered for editing, one row per row
    of the left join, its On_Hand coerced and filled.  [onhand] comes from
    [load_data] and has its On_Hand column, so every joined row carries a
    cell. *)
Definition grid_row (m : merged_row) : Edited.row :=
  Edited.mk (Comps.Component m.1) (Comps.UOM m.1)
    (CNum (coerce0 (default (CNum NaN) m.2))) (Comps.Per_Case m.1).

Definition base_grid (comps : list Comps.row) (onhand : list OnHand.row)
  : result (list Edited.row) :=
  merge_left comps (OnHandFrame onhand) ≫= λ df : list merged_row,
  Ok (grid_row <$> df).

(** [edited[["Component","On_Hand"]]], the frame that line 251 passes to
    [compute]. *)
Definition edited_onhand (edited : list Edited.row) : onhand_frame :=
  OnHandFrame ((λ r, OnHand.mk (Edited.Component r) (Edited.On_Hand r)) <$> edited).

(** ** Python strings *)

(** A text is the sequence of its UTF-8 bytes.  The separators and the
    patterns of [app.py] are ASCII, and no byte of a longer UTF-8 sequence
    is an ASCII byte, so searching and splitting find the same places as in
    Python, which works on code points. *)

(** [sub in s]. *)
Fixpoint contains (sub s : string) : bool :=
  String.prefix sub s ||
  match s with
  | EmptyString => false
  | String _ s' => contains sub s'
  end.

(** [s.split(sep)] for a separator that is not empty: the occurrences are
    taken from the left and do not overlap.  [skip] counts the characters
    of a separator still to pass, [cur] is the part being read. *)
Fixpoint split_go (sep : string) (skip : nat) (cur s : string) : list string :=
  match s with
  | EmptyString => [cur]
  | String a s' =>
      match skip with
      | S k => split_go sep k cur s'
      | O =>
          if String.prefix sep s
          then cur :: split_go sep (String.length sep - 1) EmptyString s'
          else split_go sep 0 (String.append cur (String a EmptyString)) s'
      end
  end.

Definition split (sep s : string) : list string := split_go sep 0 EmptyString s.

(** [s.replace(old, new)] for an [old] that is not empty. *)
Fixpoint replace_go (old new : string) (skip : nat) (s : string) : string :=
  match s with
  | EmptyString => EmptyString
  | String a s' =>
      match skip with
      | S k => replace_go old new k s'
      | O =>
          if String.prefix old s
          then String.append new (replace_go old new (String.length old - 1) s')
          else String a (replace_go old new 0 s')
      end
  end.

Definition replace (old new s : string) : string := replace_go old new 0 s.

(** A string in a condition: true when it is not empty. *)
Definition truthy (s : string) : bool :=
  match s with
  | EmptyString => false
  | String _ _ => true
  end.

(** ** Secrets and configuration: lines 23 to 90 *)

(** The two characters of an escaped newline, and the newline. *)
Definition escaped_newline : string :=
  String (ascii_of_nat 92) (String (ascii_of_nat 110) EmptyString).

Definition real_newline : string := String (ascii_of_nat 10) EmptyString.

(** Lines 23 to 29.  The argument is a mapping of text to text; an empty
    one is copied as it is, which is what [dict(sa) if sa else {}] gives. *)
Definition normalize_private_key (sa : gmap string string) : gmap string string :=
  let pk := default EmptyString (sa !! "private_key") in
  if contains escaped_newline pk
  then <["private_key" := replace escaped_newline real_newline pk]> sa
  else sa.

(** [st.secrets]: the top-level values, the [app] table (empty when there is
    none) and the [gcp_service_account] table. *)
Record secrets : Type := mk_secrets {
  top_level : gmap string string;
  app_block : gmap string string;
  gcp_service_account : option (gmap string string)
}.

(** Lines 31 to 35; [None] stands for the [st.stop()] of line 34. *)
Definition read_service_account (s : secrets) : option (gmap string string) :=
  normalize_private_key <$> gcp_service_account s.

(** [m.get(k)] used as a condition and then as the value. *)
Definition get_truthy (m : gmap string string) (k : string) : option string :=
  match m !! k with
  | Some v => if truthy v then Some v else None
  | None => None
  end.

(** [str.strip] removes the Unicode white space at both ends; which
    characters these are is Python's matter, so it is a parameter. *)
Variable strip : string → string.

(** Lines 59 to 64: the id inside a pasted URL.  A failing index inside the
    [try] leaves the text as it was. *)
Definition sheet_id_of_input (user_input : string) : string :=
  let txt := strip user_input in
  if contains "/d/" txt
  then match split "/d/" txt !! 1%nat with
       | Some part =>
           match split "/" part !! 0%nat with
           | Some id => id
           | None => txt
           end
       | None => txt
       end
  else txt.

(** How a run of the script leaves a function of the page: with a value, or
    through [st.rerun()], which starts the script again with the session
    state as it then is. *)
Inductive script (A : Type) : Type :=
  | Continue (a : A)
  | Rerun (session_state : gmap string string).
#[global] Arguments Continue {A} a.
#[global] Arguments Rerun {A} session_state.

(** Lines 37 to 68.  [use_btn] and [user_input] are what the button and the
    text box of the expander return in this run. *)
Definition resolve_sheet_id (qp : gmap string string) (s : secrets)
    (session_state : gmap string string) (use_btn : bool) (user_input : string)
  : script (option string) :=
  match get_truthy qp "sheet_id" with
  | Some sid => Continue (Some sid)
  | None =>
      match get_truthy (top_level s) "SHEET_ID" with
      | Some sid => Continue (Some sid)
      | None =>
          match get_truthy (app_block s) "SHEET_ID" with
          | Some sid => Continue (Some sid)
          | None =>
              if use_btn && truthy user_input
              then Rerun (<["manual_sheet_input" := sheet_id_of_input user_input]>
                            session_state)
              else Continue (session_state !! "manual_sheet_input")
          end
      end
  end.

(** Line 102: the script goes on only with an id that is not empty. *)
Definition usable_sheet_id (sheet_id : option string) : bool :=
  match sheet_id with
  | Some sid => truthy sid
  | None => false
  end.

(** One name of lines 70 to 90: the default, then each override in the
    order of the assignments. *)
Definition override (name : string) (source : option string) : string :=
  default name source.

Definition resolve_ws_names (qp : gmap string string) (s : secrets) : string * string :=
  let form_ws := "FORMULA" in
  let inv_ws := "INVENTORY" in
  let form_ws := override form_ws (get_truthy qp "formula_ws") in
  let inv_ws := override inv_ws (get_truthy qp "inventory_ws") in
  let form_ws := override form_ws (get_truthy (top_level s) "FORMULA_WS") in
  let inv_ws := override inv_ws (get_truthy (top_level s) "INVENTORY_WS") in
  let form_ws := override form_ws (get_truthy (app_block s) "FORMULA_WS") in
  let inv_ws := override inv_ws (get_truthy (app_block s) "INVENTORY_WS") in
  (form_ws, inv_ws).

(** * Properties *)

(** ** Order of [num] *)

Lemma num_ltb_Fin (a b : Qc) : num_ltb (Fin a) (Fin b) = true ↔ (a < b)%Qc.
Proof. simpl. apply bool_decide_eq_true. Qed.

Lemma num_ltb_Fin_false (a b : Qc) : num_ltb (Fin a) (Fin b) = false ↔ (b ≤ a)%Qc.
Proof.
  simpl. rewrite bool_decide_eq_false. split.
  - apply Qcnot_lt_le.
  - apply Qcle_not_lt.
Qed.

Lemma num_le_refl (x : num) : is_nan x = false → num_le x x.
Proof.
  intros Hx. repeat split; try done.
  destruct x; try done. apply num_ltb_Fin_false. apply Qcle_refl.
Qed.

Lemma num_le_trans (x y z : num) : num_le x y → num_le y z → num_le x z.
Proof.
  intros (Hx & Hy & Hxy) (_ & Hz & Hyz). repeat split; try done.
  destruct x, y, z; try done.
  apply num_ltb_Fin_false. apply num_ltb_Fin_false in Hxy, Hyz.
  by apply Qcle_trans with q0.
Qed.

Lemma num_le_total (x y : num) :
  is_nan x = false → is_nan y = false → num_le x y ∨ num_le y x.
Proof.
  intros Hx Hy. destruct (num_ltb y x) eqn:Hlt.
  - right. repeat split; try done.
    destruct x, y; try done.
    apply num_ltb_Fin in Hlt. apply num_ltb_Fin_false. by apply Qclt_le_weak.
  - left. by repeat split.
Qed.

(** ** [Series.min] *)

Lemma num_min_nan_r (x : num) : num_min x NaN = x.
Proof. by destruct x. Qed.

Lemma num_min_cases (x y : num) :
  (is_nan x = true ∧ num_min x y = y) ∨
  (is_nan x = false ∧ is_nan y = true ∧ num_min x y = x) ∨
  (num_le x y ∧ num_min x y = x) ∨
  (num_le y x ∧ num_min x y = y).
Proof.
  unfold num_min. destruct (is_nan x) eqn:Hx; [by left|].
  destruct (is_nan y) eqn:Hy; [right; by left|].
  destruct (num_ltb y x) eqn:Hlt.
  - right; right; right. split; [|done].
    destruct (num_le_total x y Hx Hy) as [(_ & _ & H)|H]; [congruence|done].
  - right; right; left. by repeat split.
Qed.

(** The minimum is [NaN] exactly when every value is; otherwise it is one of
    the values and lies below every value that is not [NaN]. *)
Lemma series_min_spec (xs : list num) :
  (is_nan (series_min xs) = true ∧ ∀ x, x ∈ xs → is_nan x = true) ∨
  (series_min xs ∈ xs ∧ is_nan (series_min xs) = false ∧
   ∀ x, x ∈ xs → is_nan x = true ∨ num_le (series_min xs) x).
Proof.
  induction xs as [|a xs IH]; simpl.
  { left. split; [done|]. intros x Hx. by apply elem_of_nil in Hx. }
  destruct (num_min_cases a (series_min xs)) as
    [(Ha & ->)|[(Ha & Hm & ->)|[(Hle & ->)|(Hle & ->)]]].
  - destruct IH as [(Hn & Hall)|(Hin & Hn & Hall)].
    + left. split; [done|]. intros x [->|Hx]%elem_of_cons; auto.
    + right. split; [by right|]. split; [done|].
      intros x [->|Hx]%elem_of_cons; auto.
  - right. split; [by left|]. split; [done|].
    intros x [->|Hx]%elem_of_cons.
    + right. by apply num_le_refl.
    + destruct IH as [(_ & Hall)|(_ & Hn & _)]; [|congruence]. left. auto.
  - right. split; [by left|]. destruct Hle as (Ha & Hm & Hlt).
    split; [done|].
    intros x [->|Hx]%elem_of_cons.
    + right. by apply num_le_refl.
    + destruct IH as [(Hn & _)|(_ & _ & Hall)]; [congruence|].
      destruct (Hall x Hx) as [?|Hle']; [by left|right].
      apply num_le_trans with (series_min xs); [by repeat split|done].
  - destruct IH as [(Hn & _)|(Hin & Hn & Hall)].
    + destruct Hle as (Hn' & _). congruence.
    + right. split; [by right|]. split; [done|].
      intros x [->|Hx]%elem_of_cons; auto.
Qed.

(** ** The calculator *)

Lemma fillna_zero_not_nan (x : num) : is_nan (fillna zero x) = false.
Proof. by destruct x. Qed.

(** What a successful call did, step by step. *)
Lemma compute_Ok comps onhand cases out :
  compute comps onhand cases = Ok out →
  merge_keys_clash (Comps.Component <$> comps) (right_keys onhand) = false ∧
  max_sellable_of (joined comps onhand cases) = Ok (max_sellable out) ∧
  shortages out = filter is_short (joined comps onhand cases) ∧
  mixed_kinds (Inv.Component <$> joined comps onhand cases) = false ∧
  display out = merge_sort row_le (joined comps onhand cases).
Proof.
  unfold compute, compute_df, merge_left, sort_values_Component.
  fold (joined comps onhand cases).
  destruct (merge_keys_clash _ _); [done|]. simpl.
  destruct (max_sellable_of _) as [m|e]; [|done]. simpl.
  destruct (mixed_kinds _); [done|]. simpl.
  intros [= <-]. done.
Qed.

Lemma elem_of_display comps onhand cases out r :
  compute comps onhand cases = Ok out →
  r ∈ display out ↔ r ∈ joined comps onhand cases.
Proof.
  intros (_ & _ & _ & _ & ->)%compute_Ok.
  by rewrite merge_sort_Permutation.
Qed.

Lemma merge_row_left onhand c m : m ∈ merge_row onhand c → m.1 = c.
Proof.
  unfold merge_row. destruct (matches c onhand) as [|r rs].
  - by intros ->%list_elem_of_singleton.
  - intros (r' & -> & _)%list_elem_of_fmap. done.
Qed.

Lemma merge_row_nonempty onhand c : ∃ m, m ∈ merge_row onhand c.
Proof.
  unfold merge_row. destruct (matches c onhand) as [|r rs].
  - eexists. by left.
  - eexists. simpl. by left.
Qed.

Lemma elem_of_joined comps onhand cases r :
  r ∈ joined comps onhand cases ↔
  ∃ c o, c ∈ comps ∧ (c, o) ∈ merge_row onhand c ∧ r = inventory_row cases (c, o).
Proof.
  unfold joined. rewrite list_elem_of_fmap. split.
  - intros ([c o] & -> & (c' & Hm & Hc)%list_elem_of_bind).
    pose proof (merge_row_left _ _ _ Hm) as Heq. simpl in Heq. subst c'.
    by exists c, o.
  - intros (c & o & Hc & Hm & ->). exists (c, o). split; [done|].
    apply list_elem_of_bind. by exists c.
Qed.

(** Every row of [df] is a left row with its Per_Case coerced. *)
Lemma joined_row_of_component comps onhand cases r :
  r ∈ joined comps onhand cases →
  ∃ c, c ∈ comps ∧ Inv.Component r = Comps.Component c ∧
       Inv.UOM r = Comps.UOM c ∧ Inv.Per_Case r = coerce0 (Comps.Per_Case c).
Proof.
  intros (c & o & Hc & _ & ->)%elem_of_joined. by exists c.
Qed.



(** *** Shortages *)

Lemma inventory_row_fields cases m :
  let r := inventory_row cases m in
  is_nan (Inv.On_Hand r) = false ∧
  is_nan (Inv.Per_Case r) = false ∧
  Inv.Required r = num_mul (Inv.Per_Case r) cases ∧
  Inv.Remaining r = num_sub (Inv.On_Hand r) (Inv.Required r).
Proof. simpl. unfold coerce0. by rewrite !fillna_zero_not_nan. Qed.


(** *** The left join *)

Lemma right_keys_rows onhand : right_keys onhand = (right_rows onhand).*1.
Proof.
  destruct onhand as [rows|keys]; simpl; rewrite <-list_fmap_compose.
  - done.
  - by rewrite list_fmap_id.
Qed.

Lemma matches_nil onhand c :
  matches c onhand = [] ↔ Comps.Component c ∉ right_keys onhand.
Proof.
  rewrite right_keys_rows. unfold matches. split.
  - intros Hnil ([k o] & Hk & Hin)%list_elem_of_fmap. simpl in Hk. subst k.
    by eapply (filter_nil_not_elem_of _ _ _ Hnil), Hin.
  - intros Hnot. destruct (filter _ _) as [|[k o] rs] eqn:Hf; [done|].
    exfalso. apply Hnot.
    assert ((k, o) ∈ filter (λ r, r.1 = Comps.Component c) (right_rows onhand)) as Hin.
    { rewrite Hf. by left. }
    apply list_elem_of_filter in Hin as [Hk Hin]. simpl in Hk. subst k.
    apply list_elem_of_fmap. by exists (Comps.Component c, o).
Qed.

Lemma elem_of_merge_row onhand c o :
  (c, o) ∈ merge_row onhand c ↔
  ((Comps.Component c ∉ right_keys onhand) ∧ o = unmatched onhand) ∨
  (Comps.Component c, o) ∈ right_rows onhand.
Proof.
  unfold merge_row. destruct (matches c onhand) as [|r rs] eqn:Hm.
  - pose proof (proj1 (matches_nil onhand c) Hm) as Hnot.
    rewrite list_elem_of_singleton. split.
    + intros [= ->]. by left.
    + intros [[_ ->]|Hin]; [done|]. exfalso. apply Hnot.
      rewrite right_keys_rows. apply list_elem_of_fmap.
      by exists (Comps.Component c, o).
  - rewrite list_elem_of_fmap. rewrite <-Hm. unfold matches. split.
    + intros ([k o'] & [= ->] & [Hk Hin]%list_elem_of_filter).
      simpl in Hk. subst k. by right.
    + intros [[Hnot _]|Hin].
      * apply matches_nil in Hnot. by rewrite Hnot in Hm.
      * exists (Comps.Component c, o). split; [done|].
        by apply list_elem_of_filter.
Qed.

Lemma coerce0_unmatched onhand : coerce0 (default (CNum zero) (unmatched onhand)) = zero.
Proof. by destruct onhand. Qed.

Lemma component_has_row comps onhand cases out c :
  compute comps onhand cases = Ok out → c ∈ comps →
  ∃ r, r ∈ display out ∧ Inv.Component r = Comps.Component c ∧
       Inv.UOM r = Comps.UOM c ∧ Inv.Per_Case r = coerce0 (Comps.Per_Case c).
Proof.
  intros Hout Hc. destruct (merge_row_nonempty onhand c) as [[c' o] Hm].
  pose proof (merge_row_left _ _ _ Hm) as Heq. simpl in Heq. subst c'.
  exists (inventory_row cases (c, o)). split; [|done].
  apply (elem_of_display _ _ _ _ _ Hout), elem_of_joined. by exists c, o.
Qed.

(** C3. [compute] left-joins the on-hand frame onto the components by
    equality of the Component cell: the rows of the display are exactly
    one row per pair of a component and a matching on-hand row, and one
    row for each component without a match; so every component appears.
    A component without a match gets On_Hand 0.0, no row keeps a missing
    On_Hand, and Required and Remaining are computed from the filled
    value. *)
Theorem left_join_defaults_on_hand comps onhand cases out :
  compute comps onhand cases = Ok out →
  (∀ r, r ∈ display out ↔
     ∃ c, c ∈ comps ∧
       (((Comps.Component c ∉ right_keys onhand) ∧
         r = inventory_row cases (c, unmatched onhand)) ∨
        (∃ o, (Comps.Component c, o) ∈ right_rows onhand ∧
              r = inventory_row cases (c, o)))) ∧
  (∀ c, c ∈ comps →
     ∃ r, r ∈ display out ∧ Inv.Component r = Comps.Component c ∧
          Inv.UOM r = Comps.UOM c ∧ Inv.Per_Case r = coerce0 (Comps.Per_Case c)) ∧
  (∀ c, c ∈ comps → Comps.Component c ∉ right_keys onhand →
     ∃ r, r ∈ display out ∧ Inv.Component r = Comps.Component c ∧
          Inv.On_Hand r = zero ∧
          Inv.Required r = num_mul (coerce0 (Comps.Per_Case c)) cases ∧
          Inv.Remaining r = num_sub zero (Inv.Required r)) ∧
  (∀ c o, c ∈ comps → (Comps.Component c, Some o) ∈ right_rows onhand →
     ∃ r, r ∈ display out ∧ Inv.Component r = Comps.Component c ∧
          Inv.On_Hand r = fillna zero (to_numeric_coerce o)) ∧
  (∀ r, r ∈ display out →
     is_nan (Inv.On_Hand r) = false ∧
     Inv.Required r = num_mul (Inv.Per_Case r) cases ∧
     Inv.Remaining r = num_sub (Inv.On_Hand r) (Inv.Required r)).
Proof.
  intros Hout.
  assert (∀ r, r ∈ display out ↔
     ∃ c, c ∈ comps ∧
       (((Comps.Component c ∉ right_keys onhand) ∧
         r = inventory_row cases (c, unmatched onhand)) ∨
        (∃ o, (Comps.Component c, o) ∈ right_rows onhand ∧
              r = inventory_row cases (c, o)))) as Hiff.
  { intros r. rewrite (elem_of_display _ _ _ _ _ Hout), elem_of_joined. split.
    - intros (c & o & Hc & [[Hnot ->]|Hin]%elem_of_merge_row & ->);
        exists c; (split; [done|]); [by left|right; by exists o].
    - intros (c & Hc & [[Hnot ->]|(o & Hin & ->)]); eexists c, _;
        (split; [done|]); (split; [|done]); apply elem_of_merge_row;
        [by left|by right]. }
  split; [done|]. split; [|split; [|split]].
  - intros c Hc. by eapply component_has_row.
  - intros c Hc Hnot. exists (inventory_row cases (c, unmatched onhand)).
    split; [apply Hiff; exists c; split; [done|by left]|].
    simpl. by rewrite coerce0_unmatched.
  - intros c o Hc Hin. exists (inventory_row cases (c, Some o)).
    split; [apply Hiff; exists c; split; [done|right; by exists (Some o)]|done].
  - intros r Hr. apply (elem_of_display _ _ _ _ _ Hout) in Hr.
    apply list_elem_of_fmap in Hr as (m & -> & _).
    destruct (inventory_row_fields cases m) as (? & _ & ? & ?). done.
Qed.

(** *** Row counts *)

Lemma filter_key_NoDup (l : list (cell * option cell)) (k : cell) :
  NoDup (l.*1) → (length (filter (λ r, r.1 = k) l) ≤ 1)%nat.
Proof.
  induction l as [|[k' o] l IH]; simpl; [lia|].
  intros [Hnot Hnd]%NoDup_cons. rewrite filter_cons. simpl.
  destruct (decide (k' = k)) as [->|Hne]; [|by apply IH].
  destruct (filter (λ r, r.1 = k) l) as [|[k'' o''] rs] eqn:Hf; [simpl; lia|].
  exfalso. apply Hnot.
  assert ((k'', o'') ∈ filter (λ r, r.1 = k) l) as Hin by (rewrite Hf; by left).
  apply list_elem_of_filter in Hin as [Hk Hin]. simpl in Hk. subst k''.
  apply list_elem_of_fmap. by exists (k, o'').
Qed.

Lemma merge_row_single onhand c :
  NoDup (right_keys onhand) →
  merge_row onhand c = [(c, on_hand_cell_of onhand c)].
Proof.
  intros Hnd. rewrite right_keys_rows in Hnd.
  pose proof (filter_key_NoDup _ (Comps.Component c) Hnd) as Hlen.
  unfold merge_row, on_hand_cell_of, matches in *.
  destruct (filter _ _) as [|r [|r' rs]]; simpl in *; [done|done|lia].
Qed.

Lemma joined_single comps onhand cases :
  NoDup (right_keys onhand) →
  joined comps onhand cases =
  (λ c, inventory_row cases (c, on_hand_cell_of onhand c)) <$> comps.
Proof.
  intros Hnd. unfold joined.
  induction comps as [|c comps IH]; [done|].
  rewrite bind_cons, fmap_app, IH, (merge_row_single _ _ Hnd). done.
Qed.

(** C9. When no Component value occurs twice in the on-hand frame, the
    display holds exactly one row per component row: it is a rearrangement
    of the components, each with its on-hand cell, so it has as many rows
    as the components input.  With a Component value repeated in the
    on-hand frame the join can emit several rows for one component. *)
Theorem display_one_row_per_component :
  (∀ comps onhand cases out,
     compute comps onhand cases = Ok out →
     NoDup (right_keys onhand) →
     display out ≡ₚ
       (λ c, inventory_row cases (c, on_hand_cell_of onhand c)) <$> comps ∧
     length (display out) = length comps) ∧
  (∃ c o1 o2 cases out,
     compute [c] (OnHandFrame [o1; o2]) cases = Ok out ∧
     OnHand.Component o1 = OnHand.Component o2 ∧
     length (display out) = 2%nat).
Proof.
  split.
  - intros comps onhand cases out Hout Hnd.
    apply compute_Ok in Hout as (_ & _ & _ & _ & ->).
    rewrite merge_sort_Permutation, (joined_single _ _ _ Hnd).
    split; [done|]. by rewrite length_fmap.
  - exists (Comps.mk (CStr "A") (CNum (Fin (Qc_of_Z 1))) (CStr "kg")).
    exists (OnHand.mk (CStr "A") (CNum (Fin (Qc_of_Z 4)))).
    exists (OnHand.mk (CStr "A") (CNum (Fin (Qc_of_Z 7)))).
    exists zero.
    match goal with
    | |- ∃ out, ?call = _ ∧ _ =>
        exists (match call with Ok out => out | Raise _ => mk_output [] 0 [] end)
    end.
    by vm_compute.
Qed.

(** *** Negative results *)

(** C10. [compute] does not clamp max_sellable at zero: there is an input
    with a row of Per_Case > 0 and On_Hand < 0 for which the max_sellable
    it returns is strictly negative. *)
Theorem max_sellable_can_be_negative :
  ∃ comps onhand cases out,
    compute comps onhand cases = Ok out ∧
    (∃ r, r ∈ display out ∧ num_ltb zero (Inv.Per_Case r) = true ∧
          num_ltb (Inv.On_Hand r) zero = true) ∧
    max_sellable out < 0.
Proof.
  exists [Comps.mk (CStr "A") (CNum (Fin (Qc_of_Z 2))) (CStr "kg")].
  exists (OnHandFrame [OnHand.mk (CStr "A") (CNum (Fin (Qc_of_Z (-3))))]).
  exists zero.
  match goal with
  | |- ∃ out, ?call = _ ∧ _ =>
      exists (match call with Ok out => out | Raise _ => mk_output [] 0 [] end)
  end.
  split; [by vm_compute|]. split; [|by vm_compute].
  eexists. split; [vm_compute; apply list_elem_of_here|]. by vm_compute.
Qed.

(** *** When [compute] returns *)

Lemma existsb_elem_of {A} (f : A → bool) (l1 l2 : list A) :
  (∀ x, x ∈ l1 ↔ x ∈ l2) → existsb f l1 = existsb f l2.
Proof.
  intros Hiff. apply eq_true_iff_eq. rewrite !existsb_exists.
  split; intros (x & Hx & Hf); exists x; (split; [|done]);
    apply list_elem_of_In; apply list_elem_of_In in Hx; by apply Hiff.
Qed.

(** The sort sees the key column of the components. *)
Lemma mixed_kinds_joined comps onhand cases :
  mixed_kinds (Inv.Component <$> joined comps onhand cases) =
  mixed_kinds (Comps.Component <$> comps).
Proof.
  assert (∀ k, k ∈ Inv.Component <$> joined comps onhand cases ↔
               k ∈ Comps.Component <$> comps) as Hiff.
  { intros k. rewrite !list_elem_of_fmap. split.
    - intros (r & -> & (c & Hc & -> & _)%joined_row_of_component). by exists c.
    - intros (c & -> & Hc). destruct (merge_row_nonempty onhand c) as [[c' o] Hm].
      pose proof (merge_row_left _ _ _ Hm) as Heq. simpl in Heq. subst c'.
      exists (inventory_row cases (c, o)). split; [done|].
      apply elem_of_joined. by exists c, o. }
  unfold mixed_kinds. by rewrite !(existsb_elem_of _ _ _ Hiff).
Qed.

Lemma compute_unfold comps onhand cases :
  compute comps onhand cases =
  if merge_keys_clash (Comps.Component <$> comps) (right_keys onhand)
  then Raise ValueError
  else match max_sellable_of (joined comps onhand cases) with
       | Raise e => Raise e
       | Ok m =>
           if mixed_kinds (Comps.Component <$> comps) then Raise TypeError
           else Ok (mk_output (merge_sort row_le (joined comps onhand cases)) m
                      (filter is_short (joined comps onhand cases)))
       end.
Proof.
  unfold compute, compute_df, merge_left, sort_values_Component.
  fold (joined comps onhand cases).
  destruct (merge_keys_clash _ _); [done|]. simpl.
  destruct (max_sellable_of _); [|done]. simpl.
  rewrite <-(mixed_kinds_joined comps onhand cases). unfold joined.
  by destruct (mixed_kinds _).
Qed.



(** ** The loader *)

Lemma columns_text_columns h d : (text_columns h d).*1 = h.
Proof.
  unfold text_columns. rewrite fmap_imap.
  rewrite (imap_ext _ (const id)); [|done].
  by rewrite imap_const, list_fmap_id.
Qed.

Lemma length_to_numeric_ignore col : length (to_numeric_ignore col) = length col.
Proof.
  unfold to_numeric_ignore. destruct (mapM parse_float col) as [xs|] eqn:Hm.
  - rewrite length_fmap. symmetry. by eapply length_mapM.
  - by rewrite length_fmap.
Qed.

(** A column read from a sheet is of one kind. *)
Lemma mixed_kinds_to_numeric_ignore col : mixed_kinds (to_numeric_ignore col) = false.
Proof.
  unfold to_numeric_ignore, mixed_kinds.
  destruct (mapM parse_float col) as [xs|].
  - assert (existsb is_text (CNum <$> xs) = false) as ->; [|done].
    induction xs; simpl; auto.
  - assert (existsb (λ c, is_number c && negb (is_null c)) (CStr <$> col) = false)
      as ->; [|apply andb_false_r].
    induction col; simpl; auto.
Qed.

(** The frame of a sheet that was read: its columns are the header, no
    name is repeated, every column has one cell per data row and was
    coerced as a whole. *)
Lemma read_ws_df_Ok ws df :
  read_ws_df ws = Ok df →
  columns df = header ws ∧ NoDup (header ws) ∧
  Forall (λ c, length c.2 = length (data_rows ws) ∧
               ∃ col, length col = length (data_rows ws) ∧
                      c.2 = to_numeric_ignore col) df.
Proof.
  unfold read_ws_df, header, data_rows, columns.
  destruct (get_all_values ws) as [|h d]; simpl.
  { intros [= <-]. repeat split; [constructor|constructor]. }
  destruct (decide (NoDup h)) as [Hnd|]; [|done].
  intros [= <-]. split; [|split; [done|]].
  - rewrite <-list_fmap_compose.
    rewrite <-(columns_text_columns h d) at 2. by apply list_fmap_ext.
  - apply Forall_fmap, Forall_forall. intros [n col] Hin. simpl.
    assert (length col = length d) as Hlen.
    { unfold text_columns in Hin.
      apply elem_of_lookup_imap in Hin as (j & name & [= _ ->] & _).
      by rewrite length_fmap. }
    rewrite length_to_numeric_ignore. split; [done|by exists col].
Qed.

Lemma read_ws_df_NoDup ws : NoDup (header ws) → ∃ df, read_ws_df ws = Ok df.
Proof.
  unfold read_ws_df, header. destruct (get_all_values ws) as [|h d]; simpl; [eauto|].
  intros Hnd. rewrite decide_True by done. eauto.
Qed.

Lemma column_elem_of (df : frame) name :
  name ∈ columns df → (name, column df name) ∈ df.
Proof.
  unfold columns. induction df as [|[n col] df IH]; simpl.
  { by intros ?%elem_of_nil. }
  destruct (decide (n = name)) as [->|Hne]; [by left|].
  intros [?|Hin]%elem_of_cons; [congruence|]. right. by apply IH.
Qed.

Lemma column_of_read ws df name :
  read_ws_df ws = Ok df → name ∈ columns df →
  length (column df name) = length (data_rows ws) ∧
  ∃ col, column df name = to_numeric_ignore col.
Proof.
  intros (_ & _ & Hall)%read_ws_df_Ok Hin%column_elem_of.
  rewrite Forall_forall in Hall.
  destruct (Hall _ Hin) as (Hlen & col & _ & Hcol). simpl in *. eauto.
Qed.

Lemma n_rows_of_read ws df :
  read_ws_df ws = Ok df → df ≠ [] → n_rows df = length (data_rows ws).
Proof.
  intros (_ & _ & Hall)%read_ws_df_Ok Hne.
  destruct df as [|[n col] df]; [done|].
  apply Forall_cons in Hall as [[Hlen _] _]. done.
Qed.

Lemma issubset_true names cols :
  issubset names cols = true ↔ ∀ n, n ∈ names → n ∈ cols.
Proof.
  unfold issubset. rewrite forallb_forall. split.
  - intros H n Hn. apply list_elem_of_In in Hn.
    by apply H, bool_decide_eq_true in Hn.
  - intros H n Hn. apply bool_decide_eq_true, H. by apply list_elem_of_In.
Qed.

Lemma issubset_pair a b cols :
  issubset [a; b] cols = true ↔ a ∈ cols ∧ b ∈ cols.
Proof.
  rewrite issubset_true. split.
  - intros H. split; apply H; [by left|by right; left].
  - intros [Ha Hb] n [->|[->|[]%elem_of_nil]%elem_of_cons]%elem_of_cons; done.
Qed.

(** [load_data] once both sheets are fetched and read. *)
Lemma load_data_read sh fws iws formula inv :
  sh !! FORMULA_WS = Some fws → sh !! INVENTORY_WS = Some iws →
  read_ws_df fws = Ok formula → read_ws_df iws = Ok inv →
  load_data sh =
  if negb (issubset ["Component"; "Per_Case"] (columns formula))
  then Raise (Stopped SchemaError)
  else Ok (formula_comps formula,
           inventory_onhand (formula_comps formula) inv).
Proof.
  intros Hf Hi Hrf Hri. unfold load_data, open_worksheet.
  rewrite Hf, Hi. simpl. rewrite Hrf. simpl. rewrite Hri. done.
Qed.

Lemma comps_rows_columns (a b c : list cell) :
  length a = length b → length a = length c →
  let rows := zip_with (λ cp u, Comps.mk cp.1 cp.2 u) (zip a b) c in
  Comps.Component <$> rows = a ∧ Comps.Per_Case <$> rows = b ∧
  Comps.UOM <$> rows = c ∧ length rows = length a.
Proof.
  revert b c. induction a as [|x a IH]; intros [|y b] [|z c] Hb Hc; try done.
  simplify_eq/=. destruct (IH b c) as (IH1 & IH2 & IH3 & IH4); [done..|].
  repeat split; csimpl; f_equal; done.
Qed.

(** The component rows of a FORMULA frame with its required columns: one
    per data row, each column in the sheet's order. *)
Lemma formula_comps_columns fws formula :
  read_ws_df fws = Ok formula →
  "Component" ∈ columns formula → "Per_Case" ∈ columns formula →
  let comps := formula_comps formula in
  length comps = length (data_rows fws) ∧
  Comps.Component <$> comps = column formula "Component" ∧
  Comps.Per_Case <$> comps = column formula "Per_Case" ∧
  Comps.UOM <$> comps =
    (if bool_decide ("UOM" ∈ columns formula) then column formula "UOM"
     else replicate (length (data_rows fws)) (CStr "")).
Proof.
  intros Hr Hc Hp.
  destruct (column_of_read _ _ _ Hr Hc) as [Hlc _].
  destruct (column_of_read _ _ _ Hr Hp) as [Hlp _].
  assert (formula ≠ []) as Hne.
  { intros ->. by apply elem_of_nil in Hc. }
  pose proof (n_rows_of_read _ _ Hr Hne) as Hn.
  unfold formula_comps. rewrite Hn.
  set (uom := if bool_decide _ then _ else _).
  assert (length uom = length (data_rows fws)) as Hlu.
  { unfold uom. case_bool_decide as Hu.
    - by destruct (column_of_read _ _ _ Hr Hu) as [? _].
    - by rewrite length_replicate. }
  destruct (comps_rows_columns (column formula "Component")
              (column formula "Per_Case") uom) as (? & ? & ? & ?); [congruence..|].
  repeat split; congruence.
Qed.

(** C5, as amended.  Once both worksheets are fetched and read,
    [load_data] stops with the schema error if and only if the FORMULA sheet
    lacks the column Component or the column Per_Case; otherwise it returns
    one component per data row.  The column UOM is optional: without it
    every loaded component has the empty string as UOM. *)
Theorem schema_error_iff_required_column_missing sh fws iws formula inv :
  sh !! FORMULA_WS = Some fws → sh !! INVENTORY_WS = Some iws →
  read_ws_df fws = Ok formula → read_ws_df iws = Ok inv →
  (load_data sh = Raise (Stopped SchemaError) ↔
     "Component" ∉ header fws ∨ "Per_Case" ∉ header fws) ∧
  ("Component" ∈ header fws → "Per_Case" ∈ header fws →
     ∃ comps onhand,
       load_data sh = Ok (comps, onhand) ∧
       length comps = length (data_rows fws) ∧
       ("UOM" ∉ header fws → ∀ c, c ∈ comps → Comps.UOM c = CStr "") ∧
       ("UOM" ∈ header fws → Comps.UOM <$> comps = column formula "UOM")).
Proof.
  intros Hf Hi Hrf Hri.
  rewrite (load_data_read _ _ _ _ _ Hf Hi Hrf Hri).
  destruct (read_ws_df_Ok _ _ Hrf) as (Hcols & _ & _). rewrite <-Hcols.
  destruct (issubset _ _) eqn:Hsub; simpl.
  - apply issubset_pair in Hsub as [Hc Hp]. split.
    { split; [done|]. intros [?|?]; done. }
    intros _ _. eexists _, _. split; [done|].
    destruct (formula_comps_columns _ _ Hrf Hc Hp) as (Hlen & _ & _ & Hu).
    split; [done|]. split.
    + intros Hno c Hin. rewrite bool_decide_eq_false_2 in Hu by done.
      apply (list_elem_of_fmap_2 Comps.UOM) in Hin. rewrite Hu in Hin.
      by apply elem_of_replicate_inv in Hin.
    + intros Hyes. by rewrite bool_decide_eq_true_2 in Hu.
  - split.
    + split; [|done]. intros _.
      destruct (decide ("Component" ∈ columns formula)) as [Hc|]; [|by left].
      destruct (decide ("Per_Case" ∈ columns formula)) as [Hp|]; [|by right].
      assert (issubset ["Component"; "Per_Case"] (columns formula) = true)
        by by apply issubset_pair.
      congruence.
    + intros Hc Hp.
      assert (issubset ["Component"; "Per_Case"] (columns formula) = true)
        by by apply issubset_pair.
      congruence.
Qed.

(** *** An empty inventory *)

Lemma Qc_sign_pos (a : Qc) : (0 < a)%Qc → Qc_sign a = Gt.
Proof. intros H. unfold Qc_sign, Qccompare. by apply Qgt_alt. Qed.









(** ** The writeback *)

Lemma update_cleared (values ws : worksheet) : update values (clear ws) = values.
Proof. by destruct values. Qed.

(** Without [ws.clear()] the cells outside the written grid would stay. *)
Lemma update_keeps_cells_outside (x a b c : scell) :
  update [[x]] [[a; b]; [c]] = [[x; b]; [c]].
Proof. reflexivity. Qed.

Lemma to_scell_coerce0 (c : cell) : to_scell (CNum (coerce0 c)) = SNumber (coerce0 c).
Proof. unfold to_scell, coerce0. by rewrite fillna_zero_not_nan. Qed.


Lemma onhand_values_rows edited_df :
  onhand_values edited_df =
  [SText "Component"; SText "On_Hand"]
    :: ((λ r, [to_scell (Edited.Component r);
               SNumber (coerce0 (Edited.On_Hand r))]) <$> edited_df).
Proof.
  unfold onhand_values. f_equal. rewrite <-list_fmap_compose.
  apply list_fmap_ext. intros i r _. cbn -[to_scell coerce0].
  by rewrite to_scell_coerce0.
Qed.

Lemma write_onhand_Ok sh edited_df sh' :
  write_onhand sh edited_df = Ok sh' →
  sh' = <[INVENTORY_WS := onhand_values edited_df]> sh.
Proof.
  unfold write_onhand, open_worksheet.
  destruct (sh !! INVENTORY_WS); [|done]. cbn -[update clear onhand_values].
  rewrite update_cleared. by intros [= <-].
Qed.


(** ** Writing, then loading *)

Lemma fill_gaps_rectangular n (rows : list (list string)) :
  Forall (λ row, length row = n) rows → fill_gaps rows = rows.
Proof.
  intros Hall. unfold fill_gaps.
  assert (foldr Nat.max 0%nat (length <$> rows) ≤ n)%nat as Hw.
  { induction Hall as [|row rows Hrow _ IH]; csimpl; [lia|].
    apply Nat.max_lub; lia. }
  revert Hw. generalize (foldr Nat.max 0%nat (length <$> rows)). intros w Hw.
  induction Hall as [|row rows Hrow _ IH]; [done|]. csimpl.
  rewrite IH. replace (w - length row)%nat with 0%nat by lia.
  simpl. by rewrite app_nil_r.
Qed.

Lemma get_all_values_onhand_values edited_df :
  get_all_values (onhand_values edited_df) =
  ["Component"; "On_Hand"]
    :: ((λ r, [render (to_scell (Edited.Component r));
               render_number (coerce0 (Edited.On_Hand r))]) <$> edited_df).
Proof.
  rewrite onhand_values_rows. unfold get_all_values. csimpl.
  rewrite <-list_fmap_compose.
  apply (fill_gaps_rectangular 2). constructor; [done|].
  apply Forall_fmap, Forall_forall. by intros r _.
Qed.

(** The frame that [read_ws_df] builds from a sheet just written. *)
Lemma read_ws_df_onhand_values edited_df :
  read_ws_df (onhand_values edited_df) =
  Ok [("Component",
       to_numeric_ignore ((λ r, render (to_scell (Edited.Component r))) <$> edited_df));
      ("On_Hand",
       to_numeric_ignore ((λ r, render_number (coerce0 (Edited.On_Hand r))) <$> edited_df))].
Proof.
  unfold read_ws_df. rewrite get_all_values_onhand_values.
  rewrite decide_True
    by (apply NoDup_cons_2; [by intros ?%list_elem_of_singleton|apply NoDup_singleton]).
  unfold text_columns. cbn [imap fmap list_fmap prod_map id fst snd compose].
  by rewrite <-!list_fmap_compose.
Qed.

Lemma load_data_Ok sh comps onhand :
  load_data sh = Ok (comps, onhand) →
  ∃ fws iws formula inv,
    sh !! FORMULA_WS = Some fws ∧ sh !! INVENTORY_WS = Some iws ∧
    read_ws_df fws = Ok formula ∧ read_ws_df iws = Ok inv ∧
    comps = formula_comps formula ∧ onhand = inventory_onhand comps inv.
Proof.
  unfold load_data, open_worksheet.
  destruct (sh !! FORMULA_WS) as [fws|]; [|done].
  destruct (sh !! INVENTORY_WS) as [iws|]; [|done]. simpl.
  destruct (read_ws_df fws) as [formula|] eqn:Hrf; [|done]. simpl.
  destruct (read_ws_df iws) as [inv|] eqn:Hri; [|done].
  cbn -[formula_comps inventory_onhand].
  destruct (negb _); [done|]. intros [= Hc Ho]. subst comps onhand.
  by exists fws, iws, formula, inv.
Qed.

Lemma mapM_parse_close (close : num → num → Prop) (f : Edited.row → num)
  (edited_df : list Edited.row) :
  (∀ r, r ∈ edited_df →
     ∃ y, parse_float (render_number (f r)) = Some y ∧ close (f r) y) →
  ∃ ys, mapM parse_float ((λ r, render_number (f r)) <$> edited_df) = Some ys ∧
        Forall2 (λ r y, close (f r) y) edited_df ys.
Proof.
  induction edited_df as [|r rs IH]; intros Hall.
  { exists []. split; [done|constructor]. }
  destruct (Hall r) as (y & Hy & Hc); [by left|].
  destruct IH as (ys & Hys & Hcl); [intros r' Hr'; apply Hall; by right|].
  exists (y :: ys). split; [|by constructor].
  apply mapM_Some. csimpl. constructor; [done|by apply mapM_Some].
Qed.

Lemma Forall2_zip_on_hand {A} (P : A → num → Prop) (l : list A)
  (keys : list cell) (ys : list num) :
  length keys = length ys → Forall2 P l ys →
  Forall2 (λ r o, ∃ y, OnHand.On_Hand o = CNum y ∧ P r y) l
    (zip_with OnHand.mk keys (CNum <$> ys)).
Proof.
  intros Hlen Hall. revert keys Hlen.
  induction Hall as [|r y l ys Hry _ IH]; intros [|k keys] Hlen; simplify_eq/=.
  - constructor.
  - constructor; [by exists y|by apply IH].
Qed.

(** After a writeback the load returns as soon as the FORMULA sheet is a
    different worksheet with its required columns. *)
Lemma load_after_write_returns sh sh' edited_df fws formula :
  FORMULA_WS ≠ INVENTORY_WS →
  sh !! FORMULA_WS = Some fws → read_ws_df fws = Ok formula →
  "Component" ∈ header fws → "Per_Case" ∈ header fws →
  write_onhand sh edited_df = Ok sh' →
  ∃ comps onhand, load_data sh' = Ok (comps, onhand).
Proof.
  intros Hne Hf Hrf Hc Hp ->%write_onhand_Ok.
  destruct (read_ws_df_Ok _ _ Hrf) as (Hcols & _ & _). rewrite <-Hcols in Hc, Hp.
  erewrite load_data_read;
    [|by rewrite lookup_insert_ne|by rewrite lookup_insert_eq|done
     |apply read_ws_df_onhand_values].
  rewrite (proj2 (issubset_pair _ _ _) (conj Hc Hp)). simpl. eauto.
Qed.

(** C7. Writing the edited grid and then loading from the same store
    gives back the on-hand values that were written, row by row in the
    written order: each loaded On_Hand is a number within tolerance of the
    number written, for any tolerance that the sheet's display of a
    number, read back by pandas, stays within. *)
Theorem write_then_load_round_trip (close : num → num → Prop)
    sh sh' edited_df comps onhand :
  write_onhand sh edited_df = Ok sh' →
  load_data sh' = Ok (comps, onhand) →
  (∀ r, r ∈ edited_df →
     ∃ y, parse_float (render_number (coerce0 (Edited.On_Hand r))) = Some y ∧
          close (coerce0 (Edited.On_Hand r)) y) →
  Forall2 (λ r o, ∃ y, OnHand.On_Hand o = CNum y ∧
                       close (fillna zero (to_numeric_coerce (Edited.On_Hand r))) y)
    edited_df onhand.
Proof.
  intros ->%write_onhand_Ok Hload Hclose.
  apply load_data_Ok in Hload as (fws & iws & formula & inv & _ & Hi & _ & Hri & _ & ->).
  rewrite lookup_insert_eq in Hi. injection Hi as <-.
  rewrite read_ws_df_onhand_values in Hri. injection Hri as <-.
  destruct (mapM_parse_close close (λ r, coerce0 (Edited.On_Hand r)) edited_df Hclose)
    as (ys & Hys & Hall).
  unfold inventory_onhand.
  rewrite (proj2 (issubset_pair _ _ _)) by (split; [by left|by right; left]).
  cbn [column]. rewrite decide_True by done.
  rewrite decide_False by done. rewrite decide_True by done.
  unfold to_numeric_ignore at 2. rewrite Hys.
  apply Forall2_zip_on_hand; [|done].
  rewrite length_to_numeric_ignore, length_fmap. by apply Forall2_length in Hall.
Qed.

(** ** The calculator, further *)

(** *** The order size and [max_sellable] *)

Lemma max_sellable_of_ratios df :
  max_sellable_of df =
  match ratio <$> filter is_candidate df with
  | [] => Ok 0
  | rs => math_floor (series_min rs)
  end.
Proof. unfold max_sellable_of. by destruct (filter is_candidate df). Qed.

Lemma candidate_ratios_cases (ms : list merged_row) c1 c2 :
  ratio <$> filter is_candidate (inventory_row c1 <$> ms) =
  ratio <$> filter is_candidate (inventory_row c2 <$> ms).
Proof.
  induction ms as [|m ms IH]; [done|].
  rewrite !fmap_cons, !filter_cons.
  change (is_candidate (inventory_row c2 m)) with (is_candidate (inventory_row c1 m)).
  destruct (decide (is_candidate (inventory_row c1 m))); [|done].
  rewrite !fmap_cons. by f_equal.
Qed.

Lemma max_sellable_of_cases comps onhand c1 c2 :
  max_sellable_of (joined comps onhand c1) = max_sellable_of (joined comps onhand c2).
Proof.
  rewrite !max_sellable_of_ratios. unfold joined.
  by rewrite (candidate_ratios_cases _ c1 c2).
Qed.

(** X1.  The number of sellable cases does not depend on the order size
    typed in the page, and neither does whether [compute] raises nor which
    exception it raises. *)
Theorem max_sellable_independent_of_cases comps onhand c1 c2 :
  (∀ e, compute comps onhand c1 = Raise e ↔ compute comps onhand c2 = Raise e) ∧
  (∀ o1 o2, compute comps onhand c1 = Ok o1 → compute comps onhand c2 = Ok o2 →
     max_sellable o1 = max_sellable o2).
Proof.
  rewrite !compute_unfold, (max_sellable_of_cases comps onhand c1 c2).
  destruct (merge_keys_clash _ _); [by split; [|intros ? ? [=]]|].
  destruct (max_sellable_of _) as [m|e']; [|by split; [|intros ? ? [=]]].
  destruct (mixed_kinds _); [by split; [|intros ? ? [=]]|].
  split; [by split; intros [=]|]. by intros o1 o2 [= <-] [= <-].
Qed.

(** *** Exact arithmetic on one row *)







Lemma Qc_sign_Gt (a : Qc) : Qc_sign a = Gt ↔ (0 < a)%Qc.
Proof.
  unfold Qc_sign. rewrite <-Qcgt_alt. done.
Qed.

Lemma Qc_sign_Lt (a : Qc) : Qc_sign a = Lt ↔ (a < 0)%Qc.
Proof.
  unfold Qc_sign. by rewrite <-Qclt_alt.
Qed.

Lemma Qc_sign_Eq (a : Qc) : Qc_sign a = Eq ↔ a = 0%Qc.
Proof.
  unfold Qc_sign. by rewrite <-Qceq_alt.
Qed.




Lemma joined_row_fields comps onhand cases r :
  r ∈ joined comps onhand cases →
  is_nan (Inv.On_Hand r) = false ∧ is_nan (Inv.Per_Case r) = false ∧
  Inv.Required r = num_mul (Inv.Per_Case r) cases ∧
  Inv.Remaining r = num_sub (Inv.On_Hand r) (num_mul (Inv.Per_Case r) cases).
Proof.
  intros (c & o & _ & _ & ->)%elem_of_joined.
  destruct (inventory_row_fields cases (c, o)) as (? & ? & ? & ?).
  by repeat split.
Qed.


(** *** An order of zero cases *)

Lemma zero_order_row (oh pc : num) :
  is_nan oh = false → is_nan pc = false →
  (is_finite pc = true →
     num_mul pc zero = zero ∧ num_sub oh (num_mul pc zero) = oh) ∧
  (num_ltb (num_sub oh (num_mul pc zero)) zero = true ↔
     is_finite pc = true ∧ num_ltb oh zero = true).
Proof.
  intros Hoh Hpc. destruct pc as [a| | |]; try done.
  - assert (num_mul (Fin a) zero = zero) as ->
      by (unfold zero; simpl; by rewrite Qcmult_0_r).
    assert (num_sub oh zero = oh) as ->.
    { destruct oh as [b| | |]; try done. unfold zero; simpl.
      f_equal. ring. }
    split; [done|]. split; [done|by intros [_ ?]].
  - change (num_mul PInf zero) with NaN.
    split; [done|]. by destruct oh; simpl; (split; [|intros [? _]]).
  - change (num_mul NInf zero) with NaN.
    split; [done|]. by destruct oh; simpl; (split; [|intros [? _]]).
Qed.

(** X3.  With the order size at its initial value 0.0, a row with a finite
    Per_Case requires nothing and keeps its stock, and the shortages are
    exactly the rows with a finite Per_Case and a negative On_Hand. *)
Theorem zero_order_shortages comps onhand out :
  compute comps onhand zero = Ok out →
  (∀ r, r ∈ display out → is_finite (Inv.Per_Case r) = true →
     Inv.Required r = zero ∧ Inv.Remaining r = Inv.On_Hand r) ∧
  (∀ r, r ∈ shortages out ↔
     r ∈ display out ∧ is_finite (Inv.Per_Case r) = true ∧
     num_ltb (Inv.On_Hand r) zero = true).
Proof.
  intros Hout.
  destruct (compute_Ok _ _ _ _ Hout) as (_ & _ & Hshort & _ & _).
  pose proof (λ r, elem_of_display _ _ _ _ r Hout) as Hdisp.
  split.
  - intros r Hr%Hdisp Hfin.
    destruct (joined_row_fields _ _ _ _ Hr) as (Hoh & Hpc & -> & ->).
    by apply zero_order_row.
  - intros r. rewrite Hshort, list_elem_of_filter, Hdisp. split.
    + intros [Hs Hr]. split; [done|].
      destruct (joined_row_fields _ _ _ _ Hr) as (Hoh & Hpc & _ & Hrem).
      unfold is_short in Hs. rewrite Hrem in Hs.
      by apply (zero_order_row _ _ Hoh Hpc), Is_true_true.
    + intros (Hr & Hfin & Hneg). split; [|done].
      destruct (joined_row_fields _ _ _ _ Hr) as (Hoh & Hpc & _ & Hrem).
      unfold is_short. rewrite Hrem.
      by apply Is_true_true, (zero_order_row _ _ Hoh Hpc).
Qed.

(** *** The sign of [max_sellable] *)






(** *** When [compute] returns *)








(** *** The order of the display *)

#[global] Instance cell_le_trans : Transitive cell_le.
Proof.
  intros [s|x] [t|y] [u|z]; simpl; try done.
  - apply (transitivity (R := String.le)).
  - intros Hxy Hyz. destruct (is_nan z) eqn:Hz; [by left|right].
    destruct Hyz as [[]|[Hy Hyz]].
    destruct Hxy as [Hy'|[Hx Hxy]]; [done|].
    apply Is_true_false in Hx, Hy, Hxy, Hyz.
    assert (num_le x z) as (_ & _ & Hzx)
      by by apply (num_le_trans x y z).
    by split; apply Is_true_false.
Qed.

#[global] Instance cell_le_total : Total cell_le.
Proof.
  intros [s|x] [t|y]; simpl; try (by left); try (by right).
  - apply (total String.le).
  - destruct (is_nan y) eqn:Hy; [by left; left|].
    destruct (is_nan x) eqn:Hx; [by right; left|].
    destruct (num_le_total x y Hx Hy) as [(_ & _ & H)|(_ & _ & H)];
      [left|right]; right; by split; apply Is_true_false.
Qed.

#[global] Instance row_le_trans : Transitive row_le.
Proof. intros r1 r2 r3. unfold row_le. apply transitivity. Qed.

#[global] Instance row_le_total : Total row_le.
Proof. intros r1 r2. unfold row_le. apply total, _. Qed.

(** X7.  Line 186: the displayed frame holds the rows of the left join, in
    ascending order of Component (text by code point, numbers by value,
    missing names last). *)
Theorem display_sorted_by_component comps onhand cases out :
  compute comps onhand cases = Ok out →
  StronglySorted (λ r1 r2, cell_le (Inv.Component r1) (Inv.Component r2))
    (display out) ∧
  display out ≡ₚ joined comps onhand cases.
Proof.
  intros Hout.
  destruct (compute_Ok _ _ _ _ Hout) as (_ & _ & _ & _ & ->).
  split; [|apply merge_sort_Permutation].
  apply (StronglySorted_merge_sort row_le).
Qed.

(** *** A larger order *)

Lemma Qc_sub_neg_iff (b x : Qc) : (b - x < 0)%Qc ↔ (b < x)%Qc.
Proof.
  rewrite (Qclt_minus_iff (b - x) 0), (Qclt_minus_iff b x).
  by replace (0 + - (b - x))%Qc with (x + - b)%Qc by ring.
Qed.

Lemma short_mono (oh pc : num) (c1 c2 : Qc) :
  num_ltb pc zero = false → (c1 ≤ c2)%Qc →
  num_ltb (num_sub oh (num_mul pc (Fin c1))) zero = true →
  num_ltb (num_sub oh (num_mul pc (Fin c2))) zero = true.
Proof.
  intros Hpc Hc. destruct pc as [a| | |]; try done.
  - apply num_ltb_Fin_false in Hpc.
    destruct oh as [b| | |]; try done. unfold zero. cbn [num_mul num_sub].
    rewrite !num_ltb_Fin, !Qc_sub_neg_iff. intros Hlt.
    eapply Qclt_le_trans; [done|]. by apply Qcmult_le_mono_nonneg_l.
  - simpl. destruct (Qc_sign c1) eqn:H1; try by destruct oh.
    apply Qc_sign_Gt in H1.
    by rewrite (Qc_sign_pos c2) by by eapply Qclt_le_trans.
Qed.

(** X8.  When no Per_Case is negative, a component that is short of an
    order stays short of every larger order. *)
Theorem shortages_grow_with_order comps onhand (c1 c2 : Qc) o1 o2 :
  compute comps onhand (Fin c1) = Ok o1 →
  compute comps onhand (Fin c2) = Ok o2 →
  (c1 ≤ c2)%Qc →
  (∀ c, c ∈ comps → num_ltb (coerce0 (Comps.Per_Case c)) zero = false) →
  ∀ r1, r1 ∈ shortages o1 →
    ∃ r2, r2 ∈ shortages o2 ∧
      Inv.Component r2 = Inv.Component r1 ∧ Inv.UOM r2 = Inv.UOM r1 ∧
      Inv.On_Hand r2 = Inv.On_Hand r1 ∧ Inv.Per_Case r2 = Inv.Per_Case r1.
Proof.
  intros H1 H2 Hc Hpc r1.
  destruct (compute_Ok _ _ _ _ H1) as (_ & _ & -> & _ & _).
  destruct (compute_Ok _ _ _ _ H2) as (_ & _ & -> & _ & _).
  intros [Hs (c & o & Hin & Hm & ->)%elem_of_joined]%list_elem_of_filter.
  exists (inventory_row (Fin c2) (c, o)). split; [|done].
  apply list_elem_of_filter. split; [|apply elem_of_joined; by eauto].
  apply Is_true_true. apply Is_true_true in Hs.
  by apply (short_mono _ _ c1 c2); [apply Hpc|..].
Qed.

(** ** The page *)

Lemma filter_all {A} (P : A → Prop) `{∀ x, Decision (P x)} (l : list A) :
  (∀ x, x ∈ l → P x) → filter P l = l.
Proof.
  induction l as [|x l IH]; intros Hall; [done|].
  rewrite filter_cons, decide_True by (apply Hall; left).
  f_equal. apply IH. intros y Hy. apply Hall. by right.
Qed.

Lemma filter_none {A} (P : A → Prop) `{∀ x, Decision (P x)} (l : list A) :
  (∀ x, x ∈ l → ¬ P x) → filter P l = [].
Proof.
  induction l as [|x l IH]; intros Hall; [done|].
  rewrite filter_cons, decide_False by (apply Hall; left).
  apply IH. intros y Hy. apply Hall. by right.
Qed.

Lemma forallb_elem_of {A} (f : A → bool) (l1 l2 : list A) :
  (∀ x, x ∈ l1 ↔ x ∈ l2) → forallb f l1 = forallb f l2.
Proof.
  intros Hiff. apply eq_true_iff_eq. rewrite !forallb_forall.
  split; intros Hall x Hx; apply Hall;
    apply list_elem_of_In; apply list_elem_of_In in Hx; by apply Hiff.
Qed.

Lemma merge_keys_clash_same_elems (lk rk : list cell) :
  (∀ x, x ∈ lk ↔ x ∈ rk) → merge_keys_clash lk rk = false.
Proof.
  intros Hiff. unfold merge_keys_clash. destruct lk, rk; try done.
  rewrite (forallb_elem_of _ _ _ Hiff). by destruct (forallb _ _).
Qed.

Lemma fmap_bind_ext {A B C} (g : B → C) (f1 f2 : A → list B) (l : list A) :
  (∀ x, x ∈ l → g <$> f1 x = g <$> f2 x) →
  g <$> (l ≫= f1) = g <$> (l ≫= f2).
Proof.
  induction l as [|x l IH]; intros Hext; [done|].
  rewrite !bind_cons, !fmap_app, (Hext x) by left.
  f_equal. apply IH. intros y Hy. apply Hext. by right.
Qed.

Lemma base_grid_Ok comps onhand base :
  base_grid comps onhand = Ok base →
  merge_keys_clash (Comps.Component <$> comps) (OnHand.Component <$> onhand) = false ∧
  base = grid_row <$> (comps ≫= merge_row (OnHandFrame onhand)).
Proof.
  unfold base_grid, merge_left. simpl.
  destruct (merge_keys_clash _ _); [done|]. by intros [= <-].
Qed.

(** The key of one row of the grid, with its On_Hand. *)
Definition grid_key (m : merged_row) : cell * option cell :=
  (Comps.Component m.1, Some (CNum (coerce0 (default (CNum NaN) m.2)))).

Lemma right_rows_grid (ms : list merged_row) :
  right_rows (edited_onhand (grid_row <$> ms)) = grid_key <$> ms.
Proof.
  unfold edited_onhand. simpl. by rewrite <-!list_fmap_compose.
Qed.

Lemma matches_grid onhand comps c :
  NoDup (Comps.Component <$> comps) → c ∈ comps →
  matches c (edited_onhand (grid_row <$> (comps ≫= merge_row onhand))) =
  grid_key <$> merge_row onhand c.
Proof.
  unfold matches. rewrite right_rows_grid.
  induction comps as [|c' cs IH]; intros Hnd Hc; [by apply elem_of_nil in Hc|].
  rewrite fmap_cons in Hnd. apply NoDup_cons in Hnd as [Hc' Hnd].
  rewrite bind_cons, fmap_app, filter_app.
  assert (∀ c1 c2 r, r ∈ grid_key <$> merge_row onhand c1 →
            r.1 = Comps.Component c2 ↔ Comps.Component c1 = Comps.Component c2)
    as Hkey.
  { intros c1 c2 r (m & -> & Hm)%list_elem_of_fmap.
    apply merge_row_left in Hm. simpl. by rewrite Hm. }
  apply elem_of_cons in Hc as [->|Hc].
  - rewrite filter_all by (intros r Hr; by apply (Hkey c' c' r Hr)).
    rewrite filter_none; [by rewrite app_nil_r|].
    intros r (m & -> & (c1 & Hm & Hc1)%list_elem_of_bind)%list_elem_of_fmap Heq.
    apply merge_row_left in Hm. simpl in Heq. rewrite Hm in Heq.
    apply Hc'. rewrite <-Heq. by apply list_elem_of_fmap_2.
  - rewrite filter_none, IH; [done..|].
    intros r Hr Heq%(Hkey c' c r Hr).
    apply Hc'. rewrite Heq. by apply list_elem_of_fmap_2.
Qed.

Lemma merge_row_grid onhand comps c :
  NoDup (Comps.Component <$> comps) → c ∈ comps →
  merge_row (edited_onhand (grid_row <$> (comps ≫= merge_row onhand))) c =
  (λ m, (c, (grid_key m).2)) <$> merge_row onhand c.
Proof.
  intros Hnd Hc. unfold merge_row at 1. rewrite (matches_grid _ _ _ Hnd Hc).
  destruct (merge_row_nonempty onhand c) as [m0 Hm0].
  destruct (merge_row onhand c) as [|m ms]; [by apply elem_of_nil in Hm0|].
  csimpl. f_equal. by rewrite <-list_fmap_compose.
Qed.

Lemma inventory_row_grid cases (m : merged_row) :
  inventory_row cases (m.1, (grid_key m).2) = inventory_row cases m.
Proof.
  destruct m as [c [o|]]; unfold inventory_row, grid_key, coerce0; simpl; [|done].
  by destruct (to_numeric_coerce o).
Qed.

(** X9.  Lines 219 to 223 and 251: as long as nothing is typed into the
    grid, [compute] on the grid's Component and On_Hand columns gives what
    it gives on the stock that was loaded, whatever the order size, provided
    that no component name is repeated in FORMULA. *)
Theorem unedited_grid_same_results comps onhand base cases :
  NoDup (Comps.Component <$> comps) →
  base_grid comps onhand = Ok base →
  compute comps (edited_onhand base) cases =
  compute comps (OnHandFrame onhand) cases.
Proof.
  intros Hnd [Hclash ->]%base_grid_Ok.
  assert (joined comps (edited_onhand
            (grid_row <$> (comps ≫= merge_row (OnHandFrame onhand)))) cases =
          joined comps (OnHandFrame onhand) cases) as Hjoined.
  { unfold joined. apply fmap_bind_ext. intros c Hc.
    rewrite (merge_row_grid _ _ _ Hnd Hc), <-list_fmap_compose.
    apply list_fmap_ext. intros i m' Hm'%list_elem_of_lookup_2. simpl.
    rewrite <-(merge_row_left _ _ _ Hm') at 1. apply inventory_row_grid. }
  rewrite !compute_unfold, Hjoined. simpl right_keys at 2. rewrite Hclash.
  assert (merge_keys_clash (Comps.Component <$> comps)
            (right_keys (edited_onhand
               (grid_row <$> (comps ≫= merge_row (OnHandFrame onhand))))) = false)
    as ->; [|done].
  rewrite right_keys_rows, right_rows_grid, <-list_fmap_compose.
  apply merge_keys_clash_same_elems.
  intros x. rewrite !list_elem_of_fmap. split.
  - intros (c & -> & Hc).
    destruct (merge_row_nonempty (OnHandFrame onhand) c) as [m Hm].
    exists m. split; [simpl; by rewrite (merge_row_left _ _ _ Hm)|].
    apply list_elem_of_bind. by eauto.
  - intros (m & -> & (c & Hm & Hc)%list_elem_of_bind).
    exists c. split; [simpl; by rewrite (merge_row_left _ _ _ Hm)|done].
Qed.

(** *** A component name repeated in FORMULA *)

Lemma bind_merge_row_single onhand comps :
  NoDup (right_keys onhand) →
  comps ≫= merge_row onhand = (λ c, (c, on_hand_cell_of onhand c)) <$> comps.
Proof.
  intros Hnd. induction comps as [|c cs IH]; [done|].
  by rewrite bind_cons, fmap_cons, IH, (merge_row_single _ _ Hnd).
Qed.

Lemma not_NoDup_split {A} `{EqDecision A} (l : list A) :
  ¬ NoDup l → ∃ x l1 l2 l3, l = l1 ++ x :: l2 ++ x :: l3.
Proof.
  induction l as [|a l IH]; intros Hdup; [destruct Hdup; constructor|].
  destruct (decide (a ∈ l)) as [Hin|Hin].
  - apply list_elem_of_split in Hin as (l2 & l3 & ->). by exists a, [], l2, l3.
  - destruct IH as (x & l1 & l2 & l3 & ->).
    { intros Hnd. apply Hdup. by constructor. }
    by exists x, (a :: l1), l2, l3.
Qed.

Lemma length_bind_le {A B} (f : A → list B) (l : list A) :
  (∀ x, x ∈ l → (1 ≤ length (f x))%nat) → (length l ≤ length (l ≫= f))%nat.
Proof.
  induction l as [|a l IH]; intros Hall; [done|].
  rewrite bind_cons, length_app. simpl.
  pose proof (Hall a ltac:(left)). pose proof (IH (λ x Hx, Hall x ltac:(by right))).
  lia.
Qed.

Lemma length_bind_lt {A B} (f : A → list B) (l : list A) :
  (∀ x, x ∈ l → (1 ≤ length (f x))%nat) →
  (∃ x, x ∈ l ∧ (2 ≤ length (f x))%nat) →
  (length l < length (l ≫= f))%nat.
Proof.
  induction l as [|a l IH]; intros Hall (x & Hx & H2); [by apply elem_of_nil in Hx|].
  rewrite bind_cons, length_app. simpl.
  pose proof (Hall a ltac:(left)) as H1.
  assert (∀ y, y ∈ l → (1 ≤ length (f y))%nat) as Hall'
    by (intros y Hy; apply Hall; by right).
  apply elem_of_cons in Hx as [->|Hx].
  - pose proof (length_bind_le f l Hall'). lia.
  - pose proof (IH Hall' (ex_intro _ x (conj Hx H2))). lia.
Qed.

(** X20.  What a repeated name does to the page: with one stock row per
    name, the grid has a row for each row of FORMULA, but joining the
    components with the grid again (line 251) pairs every row of a repeated
    name with every grid row of that name, so that the display has more rows
    than FORMULA has components. *)
Theorem repeated_names_multiply_rows comps onhand base cases out :
  NoDup (OnHand.Component <$> onhand) →
  ¬ NoDup (Comps.Component <$> comps) →
  base_grid comps onhand = Ok base →
  compute comps (edited_onhand base) cases = Ok out →
  length base = length comps ∧ (length comps < length (display out))%nat.
Proof.
  intros Hnd Hdup [_ ->]%base_grid_Ok Hout.
  rewrite (bind_merge_row_single (OnHandFrame onhand) comps Hnd) in *.
  set (row := λ c, (c, on_hand_cell_of (OnHandFrame onhand) c)) in *.
  split; [by rewrite !length_fmap|].
  destruct (compute_Ok _ _ _ _ Hout) as (_ & _ & _ & _ & ->).
  rewrite (Permutation_length (merge_sort_Permutation _ _)).
  unfold joined. rewrite length_fmap. apply length_bind_lt.
  - intros c _.
    destruct (merge_row_nonempty (edited_onhand (grid_row <$> (row <$> comps))) c)
      as [m Hm].
    destruct (merge_row _ c); [by apply elem_of_nil in Hm|simpl; lia].
  - destruct (not_NoDup_split _ Hdup) as (x & k1 & k2 & k3 & Hk).
    apply fmap_app_inv in Hk as (cs1 & csa & _ & Hk & Hcomps).
    symmetry in Hk. apply fmap_cons_inv in Hk as (c & csb & Hc & Hk & ->).
    symmetry in Hk. apply fmap_app_inv in Hk as (cs2 & csc & _ & Hk & ->).
    symmetry in Hk. apply fmap_cons_inv in Hk as (c' & cs3 & Hc' & _ & ->).
    exists c. split.
    { rewrite Hcomps. apply elem_of_app. right. by left. }
    unfold merge_row, matches. rewrite right_rows_grid.
    assert (2 ≤ length (filter (λ r : cell * option cell, r.1 = Comps.Component c)
                          (grid_key <$> (row <$> comps))))%nat as Hlen.
    { rewrite Hcomps, !fmap_app, !fmap_cons, !fmap_app, !fmap_cons.
      rewrite filter_app, filter_cons_True by done.
      rewrite filter_app, filter_cons_True by (simpl; congruence).
      rewrite !length_app. simpl. rewrite !length_app. simpl. lia. }
    destruct (filter _ _) as [|r rs]; [simpl in Hlen; lia|].
    by rewrite length_fmap.
Qed.

(** ** The order of the rows in the sheets *)

Lemma num_le_antisym (x y : num) : num_le x y → num_le y x → x = y.
Proof.
  intros (Hx & Hy & Hyx) (_ & _ & Hxy).
  destruct x as [a| | |], y as [b| | |]; try done.
  apply num_ltb_Fin_false in Hyx, Hxy. f_equal. by apply Qcle_antisym.
Qed.

(** [Series.min] depends on the values of the series only, not on their
    order or multiplicity. *)
Lemma series_min_elem_of (xs ys : list num) :
  (∀ x, x ∈ xs ↔ x ∈ ys) → series_min xs = series_min ys.
Proof.
  intros Hiff.
  destruct (series_min_spec xs) as [[Hn1 Hall1]|(Hin1 & Hn1 & Hmin1)],
    (series_min_spec ys) as [[Hn2 Hall2]|(Hin2 & Hn2 & Hmin2)].
  - by destruct (series_min xs), (series_min ys).
  - apply Hiff, Hall1 in Hin2. by rewrite Hin2 in Hn2.
  - apply Hiff, Hall2 in Hin1. by rewrite Hin1 in Hn1.
  - apply num_le_antisym.
    + destruct (Hmin1 _ (proj2 (Hiff _) Hin2)) as [Hn|?]; [by rewrite Hn in Hn2|done].
    + destruct (Hmin2 _ (proj1 (Hiff _) Hin1)) as [Hn|?]; [by rewrite Hn in Hn1|done].
Qed.

Lemma max_sellable_of_Permutation (df df' : list Inv.row) :
  df ≡ₚ df' → max_sellable_of df = max_sellable_of df'.
Proof.
  intros Hperm. rewrite !max_sellable_of_ratios.
  assert (ratio <$> filter is_candidate df ≡ₚ ratio <$> filter is_candidate df')
    as Hrs by by rewrite Hperm.
  destruct (ratio <$> filter is_candidate df) as [|x xs],
    (ratio <$> filter is_candidate df') as [|y ys]; try done.
  - by apply Permutation_nil_cons in Hrs.
  - symmetry in Hrs. by apply Permutation_nil_cons in Hrs.
  - f_equal. apply series_min_elem_of. intros z. by rewrite Hrs.
Qed.

Lemma merge_keys_clash_Permutation (lk lk' rk rk' : list cell) :
  lk ≡ₚ lk' → rk ≡ₚ rk' → merge_keys_clash lk rk = merge_keys_clash lk' rk'.
Proof.
  intros Hl Hr. unfold merge_keys_clash.
  rewrite (forallb_elem_of is_number lk lk') by (intros x; by rewrite Hl).
  rewrite (forallb_elem_of is_number rk rk') by (intros x; by rewrite Hr).
  destruct lk, lk'; try done;
    try (by apply Permutation_nil_cons in Hl);
    try (symmetry in Hl; by apply Permutation_nil_cons in Hl).
  destruct rk, rk'; try done;
    try (by apply Permutation_nil_cons in Hr);
    try (symmetry in Hr; by apply Permutation_nil_cons in Hr).
Qed.

Lemma merge_row_Permutation rows rows' c :
  rows ≡ₚ rows' →
  merge_row (OnHandFrame rows) c ≡ₚ merge_row (OnHandFrame rows') c.
Proof.
  intros Hperm. unfold merge_row, matches.
  assert (filter (λ r, r.1 = Comps.Component c) (right_rows (OnHandFrame rows)) ≡ₚ
          filter (λ r, r.1 = Comps.Component c) (right_rows (OnHandFrame rows')))
    as Hms by (simpl; by rewrite Hperm).
  destruct (filter _ (right_rows (OnHandFrame rows))) as [|m ms],
    (filter _ (right_rows (OnHandFrame rows'))) as [|m' ms']; try done.
  - by apply Permutation_nil_cons in Hms.
  - symmetry in Hms. by apply Permutation_nil_cons in Hms.
  - by rewrite Hms.
Qed.

Lemma bind_Permutation_ext {A B} (f g : A → list B) (l : list A) :
  (∀ x, f x ≡ₚ g x) → l ≫= f ≡ₚ l ≫= g.
Proof.
  intros Hfg. induction l as [|x l IH]; [done|].
  by rewrite !bind_cons, (Hfg x), IH.
Qed.

Lemma joined_Permutation comps comps' rows rows' cases :
  comps ≡ₚ comps' → rows ≡ₚ rows' →
  joined comps (OnHandFrame rows) cases ≡ₚ joined comps' (OnHandFrame rows') cases.
Proof.
  intros Hc Hr. unfold joined. apply fmap_Permutation.
  rewrite Hc. apply bind_Permutation_ext. intros c.
  by apply merge_row_Permutation.
Qed.

(** X10.  The results do not depend on the order of the rows of FORMULA or
    of INVENTORY: with the rows of either permuted [compute] returns when it
    returned before, with the same [max_sellable] and the same rows in the
    display and in the shortages. *)
Theorem row_order_is_irrelevant comps comps' rows rows' cases out :
  comps ≡ₚ comps' → rows ≡ₚ rows' →
  compute comps (OnHandFrame rows) cases = Ok out →
  ∃ out', compute comps' (OnHandFrame rows') cases = Ok out' ∧
    max_sellable out' = max_sellable out ∧
    display out' ≡ₚ display out ∧
    shortages out' ≡ₚ shortages out.
Proof.
  intros Hc Hr Hout.
  destruct (compute_Ok _ _ _ _ Hout) as (Hclash & Hmax & -> & Hmixed & ->).
  pose proof (joined_Permutation _ _ _ _ cases Hc Hr) as Hj.
  rewrite mixed_kinds_joined in Hmixed.
  rewrite compute_unfold.
  rewrite <-(merge_keys_clash_Permutation (Comps.Component <$> comps) _
               (right_keys (OnHandFrame rows)) _), Hclash;
    [|by rewrite Hc|simpl; by rewrite Hr].
  rewrite <-(max_sellable_of_Permutation _ _ Hj), Hmax.
  assert (mixed_kinds (Comps.Component <$> comps') = false) as ->.
  { rewrite <-Hmixed. unfold mixed_kinds.
    f_equal; apply existsb_elem_of; intros x; by rewrite Hc. }
  eexists. split; [done|]. simpl. split; [done|].
  split; [by rewrite !merge_sort_Permutation|by rewrite Hj].
Qed.

(** ** The loader, further *)

Lemma read_ws_df_cases ws :
  (NoDup (header ws) ∧ ∃ df, read_ws_df ws = Ok df ∧ columns df = header ws) ∨
  (¬ NoDup (header ws) ∧ read_ws_df ws = Raise TypeError).
Proof.
  destruct (decide (NoDup (header ws))) as [Hnd|Hnd].
  - left. split; [done|]. destruct (read_ws_df_NoDup ws Hnd) as [df Hdf].
    exists df. split; [done|]. by apply read_ws_df_Ok in Hdf as [? _].
  - right. split; [done|]. revert Hnd. unfold read_ws_df, header.
    destruct (get_all_values ws) as [|h d]; simpl.
    + intros []. constructor.
    + intros Hnd. by rewrite decide_False.
Qed.

(** X11.  The five outcomes of [load_data], in the order of its guards: a
    missing FORMULA worksheet, a missing INVENTORY worksheet, a repeated
    header name in either sheet ([TypeError], raised before the headers of
    FORMULA are checked), a FORMULA sheet without Component or Per_Case, and
    the loaded frames. *)
Theorem load_data_outcomes sh :
  (sh !! FORMULA_WS = None ∧
   load_data sh = Raise (Stopped FormulaWorksheetMissing)) ∨
  (is_Some (sh !! FORMULA_WS) ∧ sh !! INVENTORY_WS = None ∧
   load_data sh = Raise (Stopped InventoryWorksheetMissing)) ∨
  (∃ fws iws,
     sh !! FORMULA_WS = Some fws ∧ sh !! INVENTORY_WS = Some iws ∧
     (¬ NoDup (header fws) ∨ ¬ NoDup (header iws)) ∧
     load_data sh = Raise TypeError) ∨
  (∃ fws iws,
     sh !! FORMULA_WS = Some fws ∧ sh !! INVENTORY_WS = Some iws ∧
     NoDup (header fws) ∧ NoDup (header iws) ∧
     ("Component" ∉ header fws ∨ "Per_Case" ∉ header fws) ∧
     load_data sh = Raise (Stopped SchemaError)) ∨
  (∃ fws iws comps onhand,
     sh !! FORMULA_WS = Some fws ∧ sh !! INVENTORY_WS = Some iws ∧
     NoDup (header fws) ∧ NoDup (header iws) ∧
     "Component" ∈ header fws ∧ "Per_Case" ∈ header fws ∧
     length comps = length (data_rows fws) ∧
     load_data sh = Ok (comps, onhand)).
Proof.
  destruct (sh !! FORMULA_WS) as [fws|] eqn:Hf; [right|left]; cycle 1.
  { split; [done|]. unfold load_data, open_worksheet. by rewrite Hf. }
  destruct (sh !! INVENTORY_WS) as [iws|] eqn:Hi; [right|left]; cycle 1.
  { split; [done|]. split; [done|]. unfold load_data, open_worksheet.
    by rewrite Hf, Hi. }
  destruct (read_ws_df_cases fws) as [(Hndf & formula & Hformula & Hcf)|[Hndf Hformula]];
    cycle 1.
  { left. exists fws, iws. repeat split; [by left|].
    unfold load_data, open_worksheet. rewrite Hf, Hi. simpl. by rewrite Hformula. }
  destruct (read_ws_df_cases iws) as [(Hndi & inv & Hinv & Hci)|[Hndi Hinv]];
    cycle 1.
  { left. exists fws, iws. repeat split; [by right|].
    unfold load_data, open_worksheet. rewrite Hf, Hi. simpl.
    by rewrite Hformula, Hinv. }
  right. rewrite (load_data_read sh fws iws formula inv Hf Hi Hformula Hinv).
  destruct (issubset _ _) eqn:Hsub; simpl.
  - right. apply issubset_pair in Hsub as [Hc Hp].
    destruct (formula_comps_columns _ _ Hformula Hc Hp) as (Hlen & _).
    rewrite Hcf in Hc, Hp. exists fws, iws. by eauto 10.
  - left. exists fws, iws. repeat split; try done.
    rewrite <-Hcf.
    destruct (decide ("Component" ∈ columns formula)); [|by left].
    destruct (decide ("Per_Case" ∈ columns formula)); [|by right].
    assert (issubset ["Component"; "Per_Case"] (columns formula) = true)
      by by apply issubset_pair.
    congruence.
Qed.

(** *** Where the numbers of a loaded row come from *)

Lemma column_of_header ws df j name :
  read_ws_df ws = Ok df → header ws !! j = Some name →
  column df name = to_numeric_ignore ((λ row : list string, nth j row "") <$> data_rows ws).
Proof.
  intros Hdf Hj.
  destruct (read_ws_df_Ok _ _ Hdf) as (Hcols & Hnd & _).
  assert (name ∈ columns df) as Hin
    by (rewrite Hcols; by eapply list_elem_of_lookup_2).
  apply column_elem_of in Hin. revert Hdf Hj Hnd Hin.
  unfold read_ws_df, header, data_rows.
  destruct (get_all_values ws) as [|h d]; simpl; [done|].
  destruct (decide (NoDup h)) as [_|]; [|done].
  intros [= <-] Hj Hnd ([n col] & [= <- Hcol] & Hin)%list_elem_of_fmap.
  unfold text_columns in Hin.
  apply elem_of_lookup_imap in Hin as (j' & name' & [= -> ->] & Hj').
  by rewrite Hcol, (NoDup_lookup h j j' name' Hnd Hj Hj').
Qed.


Lemma load_data_formula sh fws comps onhand :
  load_data sh = Ok (comps, onhand) → sh !! FORMULA_WS = Some fws →
  ∃ formula, read_ws_df fws = Ok formula ∧
    "Component" ∈ columns formula ∧ "Per_Case" ∈ columns formula ∧
    comps = formula_comps formula.
Proof.
  intros Hload Hf.
  destruct (load_data_Ok _ _ _ Hload)
    as (fws' & iws & formula & inv & Hf' & Hi & Hformula & Hinv & Hcomps & _).
  rewrite Hf in Hf'. injection Hf' as <-.
  rewrite (load_data_read sh fws iws formula inv Hf Hi Hformula Hinv) in Hload.
  destruct (issubset _ _) eqn:Hsub; [|done].
  apply issubset_pair in Hsub as [Hc Hp]. by exists formula.
Qed.


(** *** The kinds of the component names *)

Lemma max_sellable_of_error (df : list Inv.row) e :
  max_sellable_of df = Raise e → e = OverflowError ∨ e = ValueError.
Proof.
  unfold max_sellable_of. destruct (filter is_candidate df); [done|].
  destruct (series_min _); simpl; intros [= <-]; by eauto.
Qed.

Lemma loaded_names_one_kind sh comps onhand :
  load_data sh = Ok (comps, onhand) →
  mixed_kinds (Comps.Component <$> comps) = false.
Proof.
  intros Hload.
  destruct (load_data_Ok _ _ _ Hload)
    as (fws & iws & formula & inv & Hf & _ & _).
  destruct (load_data_formula _ _ _ _ Hload Hf) as (formula' & Hformula & Hc & Hp & ->).
  destruct (formula_comps_columns _ _ Hformula Hc Hp) as (_ & -> & _).
  destruct (column_of_read _ _ _ Hformula Hc) as (_ & col & ->).
  apply mixed_kinds_to_numeric_ignore.
Qed.

(** X13.  With components that [load_data] returned, [compute] never raises
    the [TypeError] of the sort, whatever stock frame and order size it is
    given: a column read from a sheet is all numbers or all text. *)
Theorem loaded_components_sort comps onhand sh :
  load_data sh = Ok (comps, onhand) →
  ∀ stock cases, compute comps stock cases ≠ Raise TypeError.
Proof.
  intros Hload stock cases. rewrite compute_unfold.
  rewrite (loaded_names_one_kind _ _ _ Hload).
  destruct (merge_keys_clash _ _); [done|].
  destruct (max_sellable_of _) as [m|e] eqn:Hmax; [done|].
  by apply max_sellable_of_error in Hmax as [->| ->].
Qed.

Lemma zip_with_onhand_keys (a b : list cell) :
  length a = length b → OnHand.Component <$> zip_with OnHand.mk a b = a.
Proof.
  revert b. induction a as [|x a IH]; intros [|y b]; simpl; try done.
  intros [= Hlen]. csimpl. f_equal. by apply IH.
Qed.

Lemma forallb_is_number_to_numeric_ignore (col : list string) :
  col ≠ [] →
  forallb is_number (to_numeric_ignore col) = bool_decide (is_Some (mapM parse_float col)).
Proof.
  intros Hne. unfold to_numeric_ignore.
  destruct (mapM parse_float col) as [xs|].
  - rewrite bool_decide_eq_true_2 by done. by induction xs.
  - rewrite bool_decide_eq_false_2 by by intros [? [=]].
    by destruct col.
Qed.

(** X14.  When the component names of one sheet all read as numbers and
    those of the other do not, the join of line 219 and the one in
    [compute] raise [ValueError]: the key column is numeric in one frame and
    text in the other. *)
Theorem numeric_names_against_text_names sh fws iws comps onhand jf ji :
  load_data sh = Ok (comps, onhand) →
  sh !! FORMULA_WS = Some fws → sh !! INVENTORY_WS = Some iws →
  header fws !! jf = Some "Component" →
  header iws !! ji = Some "Component" →
  "On_Hand" ∈ header iws →
  data_rows fws ≠ [] → data_rows iws ≠ [] →
  (is_Some (mapM parse_float ((λ row : list string, nth jf row "") <$> data_rows fws)) ↔
   mapM parse_float ((λ row : list string, nth ji row "") <$> data_rows iws) = None) →
  base_grid comps onhand = Raise ValueError ∧
  ∀ cases, compute comps (OnHandFrame onhand) cases = Raise ValueError.
Proof.
  intros Hload Hf Hi Hjf Hji Ho Hnef Hnei Hkinds.
  destruct (load_data_formula _ _ _ _ Hload Hf) as (formula & Hformula & Hc & Hp & Hcomps).
  destruct (load_data_Ok _ _ _ Hload)
    as (? & iws' & ? & inv & _ & Hi' & _ & Hinv & _ & Honhand).
  rewrite Hi in Hi'. injection Hi' as <-.
  destruct (read_ws_df_Ok _ _ Hinv) as (Hci & _ & _).
  assert ("Component" ∈ columns inv) as Hic
    by (rewrite Hci; by eapply list_elem_of_lookup_2).
  assert ("On_Hand" ∈ columns inv) as Hio by by rewrite Hci.
  assert (merge_keys_clash (Comps.Component <$> comps)
            (OnHand.Component <$> onhand) = true) as Hclash.
  { subst comps onhand.
    destruct (formula_comps_columns _ _ Hformula Hc Hp) as (_ & -> & _).
    unfold inventory_onhand.
    rewrite (proj2 (issubset_pair _ _ _) (conj Hic Hio)).
    rewrite zip_with_onhand_keys; cycle 1.
    { destruct (column_of_read _ _ _ Hinv Hic) as [-> _].
      by destruct (column_of_read _ _ _ Hinv Hio) as [-> _]. }
    rewrite (column_of_header _ _ _ _ Hformula Hjf), (column_of_header _ _ _ _ Hinv Hji).
    set (fcol := (λ row : list string, nth jf row "") <$> data_rows fws) in *.
    set (icol := (λ row : list string, nth ji row "") <$> data_rows iws) in *.
    assert (fcol ≠ []) as Hfc by (subst fcol; by destruct (data_rows fws)).
    assert (icol ≠ []) as Hic' by (subst icol; by destruct (data_rows iws)).
    unfold merge_keys_clash.
    rewrite !forallb_is_number_to_numeric_ignore by done.
    assert (to_numeric_ignore fcol ≠ []) as Hf1.
    { intros Hnil%(f_equal length).
      rewrite length_to_numeric_ignore in Hnil. by destruct fcol. }
    assert (to_numeric_ignore icol ≠ []) as Hi1.
    { intros Hnil%(f_equal length).
      rewrite length_to_numeric_ignore in Hnil. by destruct icol. }
    destruct (to_numeric_ignore fcol), (to_numeric_ignore icol); try done.
    destruct (mapM parse_float icol) as [ys|] eqn:Hys.
    - rewrite bool_decide_eq_false_2, bool_decide_eq_true_2; [done..|].
      intros Hsome%Hkinds. done.
    - rewrite bool_decide_eq_true_2, bool_decide_eq_false_2;
        [done|by intros [? [=]]|by apply Hkinds]. }
  split.
  - unfold base_grid, merge_left. simpl. by rewrite Hclash.
  - intros cases. rewrite compute_unfold. simpl. by rewrite Hclash.
Qed.

(** ** The writeback, further *)


(** ** Secrets and configuration *)

(** *** Python strings *)

Lemma append_cons a (s t : string) : String a s +:+ t = String a (s +:+ t).
Proof. done. Qed.

Lemma append_nil_l (t : string) : "" +:+ t = t.
Proof. done. Qed.

Lemma append_nil_r (s : string) : s +:+ "" = s.
Proof.
  induction s as [|a s IH]; [done|]. by rewrite append_cons, IH.
Qed.

Lemma append_assoc (s t u : string) : (s +:+ t) +:+ u = s +:+ t +:+ u.
Proof.
  induction s as [|a s IH]; [done|]. by rewrite !append_cons, IH.
Qed.

Lemma length_append (s t : string) :
  String.length (s +:+ t) = (String.length s + String.length t)%nat.
Proof.
  induction s as [|a s IH]; [done|]. rewrite append_cons. simpl. by rewrite IH.
Qed.

Lemma prefix_append (s t : string) : String.prefix s (s +:+ t) = true.
Proof.
  induction s as [|a s IH]; [by destruct t|].
  rewrite append_cons. simpl. by destruct (ascii_dec a a).
Qed.

(** Whether [sep] starts a text is decided by the first characters. *)
Lemma prefix_append_long (sep x y : string) :
  (String.length sep ≤ String.length x)%nat →
  String.prefix sep (x +:+ y) = String.prefix sep x.
Proof.
  revert x. induction sep as [|c sep IH]; intros [|a x]; rewrite ?append_cons;
    simpl; try done.
  - by destruct y.
  - lia.
  - intros Hlen. destruct (ascii_dec c a); [|done]. apply IH. lia.
Qed.

Lemma contains_cons (sub : string) a s :
  contains sub (String a s) = String.prefix sub (String a s) || contains sub s.
Proof. done. Qed.

Lemma split_go_cons (sep cur : string) k a s :
  split_go sep k cur (String a s) =
  match k with
  | S k' => split_go sep k' cur s
  | O =>
      if String.prefix sep (String a s)
      then cur :: split_go sep (String.length sep - 1) "" s
      else split_go sep 0 (cur +:+ String a "") s
  end.
Proof. done. Qed.

Lemma split_go_skip (sep x s cur : string) :
  split_go sep (String.length x) cur (x +:+ s) = split_go sep 0 cur s.
Proof.
  induction x as [|a x IH]; [by destruct s|]. by rewrite append_cons.
Qed.

(** The first part starts with what was read so far. *)
Lemma split_go_head (sep s cur : string) k :
  ∃ t l, split_go sep k cur s = (cur +:+ t) :: l.
Proof.
  revert k cur. induction s as [|a s IH]; intros k cur.
  { exists "", []. simpl. by rewrite append_nil_r. }
  rewrite split_go_cons. destruct k as [|k]; [|apply IH].
  destruct (String.prefix sep (String a s)).
  - exists "", (split_go sep (String.length sep - 1) "" s). by rewrite append_nil_r.
  - destruct (IH 0%nat (cur +:+ String a "")) as (t & l & ->).
    exists (String a t), l. by rewrite append_assoc.
Qed.

(** A text that contains the separator splits into two parts at least:
    the index 1 of line 62 exists. *)
Lemma split_go_contains (sep s cur : string) :
  sep ≠ "" → contains sep s = true →
  ∃ p part l, split_go sep 0 cur s = p :: part :: l.
Proof.
  intros Hsep. revert cur. induction s as [|a s IH]; intros cur.
  { by destruct sep. }
  rewrite contains_cons, split_go_cons.
  destruct (String.prefix sep (String a s)).
  - intros _. destruct (split_go_head sep s "" (String.length sep - 1)) as (t & l & ->).
    by eauto.
  - simpl. apply IH.
Qed.

Lemma split_go_no_occurrence (sep s cur : string) :
  contains sep s = false → split_go sep 0 cur s = [cur +:+ s].
Proof.
  revert cur. induction s as [|a s IH]; intros cur.
  { intros _. simpl. by rewrite append_nil_r. }
  rewrite contains_cons. intros [Hp Hc]%orb_false_elim.
  rewrite split_go_cons, Hp, (IH _ Hc). by rewrite append_assoc.
Qed.

(** Splitting at the first occurrence, which starts where [pre] ends. *)
Lemma split_go_first (sep0 pre rest cur : string) z :
  let sep := sep0 +:+ String z "" in
  contains sep (pre +:+ sep0) = false →
  split_go sep 0 cur (pre +:+ sep +:+ rest) =
  (cur +:+ pre) :: split_go sep 0 "" rest.
Proof.
  intros sep. revert cur. induction pre as [|a pre IH]; intros cur Hno.
  - rewrite append_nil_r, append_nil_l.
    pose proof (prefix_append sep rest) as Hp.
    destruct sep as [|c sep'] eqn:Hsep; [by destruct sep0|].
    rewrite append_cons in *. rewrite split_go_cons, Hp.
    replace (String.length (String c sep') - 1)%nat with (String.length sep')
      by (simpl; lia).
    by rewrite split_go_skip.
  - rewrite append_cons, contains_cons in Hno.
    apply orb_false_elim in Hno as [Hp Hc].
    rewrite append_cons.
    assert (String.prefix sep (String a (pre +:+ sep +:+ rest)) = false) as Hp'.
    { rewrite <-Hp. unfold sep.
      rewrite (append_assoc sep0 (String z "") rest), <-(append_assoc pre sep0).
      apply (prefix_append_long _ (String a (pre +:+ sep0)) (String z "" +:+ rest)).
      simpl. rewrite !length_append. simpl. lia. }
    rewrite split_go_cons, Hp', (IH _ Hc). by rewrite append_assoc.
Qed.

Lemma prefix_first_char (c a : ascii) (sep' x y : string) :
  String.prefix (String c "") (String a x) = false →
  String.prefix (String c sep') (String a y) = false.
Proof. simpl. destruct (ascii_dec c a); [by destruct x|done]. Qed.

(** The first part of a split at ["/"] holds no ["/"]. *)
Lemma split_slash_head (s cur : string) :
  ∃ t l, split_go "/" 0 cur s = (cur +:+ t) :: l ∧ contains "/" t = false.
Proof.
  revert cur. induction s as [|a s IH]; intros cur.
  { exists "", []. simpl. by rewrite append_nil_r. }
  rewrite split_go_cons. destruct (String.prefix "/" (String a s)) eqn:Hp.
  - exists "", (split_go "/" (String.length "/" - 1) "" s). by rewrite append_nil_r.
  - destruct (IH (cur +:+ String a "")) as (t & l & -> & Ht).
    exists (String a t), l. rewrite append_assoc. split; [done|].
    by rewrite contains_cons, Ht, (prefix_first_char _ _ _ _ t Hp).
Qed.

(** The part after the first ["/d/"] of a pasted address starts with the
    id, which a ["/"] or the end of the part follows. *)
Lemma split_d_head (id rest cur : string) :
  contains "/" id = false →
  rest = "" ∨ (∃ r, rest = String "/" r) →
  ∃ t l, split_go "/d/" 0 cur (id +:+ rest) = (cur +:+ id +:+ t) :: l ∧
         (t = "" ∨ ∃ t', t = String "/" t').
Proof.
  intros Hid Hrest. revert cur Hid. induction id as [|a id IH]; intros cur Hid.
  - rewrite append_nil_l. destruct Hrest as [->|[r ->]].
    + exists "", []. rewrite append_nil_l, append_nil_r. split; [done|by left].
    + rewrite split_go_cons. destruct (String.prefix "/d/" (String "/" r)).
      * exists "", (split_go "/d/" (String.length "/d/" - 1) "" r).
        rewrite append_nil_l, append_nil_r. split; [done|by left].
      * destruct (split_go_head "/d/" r (cur +:+ "/") 0) as (t & l & ->).
        exists (String "/" t), l. rewrite append_nil_l, append_assoc.
        split; [done|by eauto].
  - rewrite contains_cons in Hid. apply orb_false_elim in Hid as [Hp Hid].
    rewrite append_cons, split_go_cons.
    rewrite (prefix_first_char _ _ "d/" _ (id +:+ rest) Hp).
    destruct (IH (cur +:+ String a "") Hid) as (t & l & -> & Ht).
    exists t, l. by rewrite !append_assoc.
Qed.

Lemma split_slash_first (id t cur : string) :
  contains "/" id = false →
  split_go "/" 0 cur (id +:+ String "/" t) = (cur +:+ id) :: split_go "/" 0 "" t.
Proof.
  intros Hid. apply (split_go_first "" id t cur "/"). by rewrite append_nil_r.
Qed.

Lemma split_d_first (pre rest cur : string) :
  contains "/d/" (pre +:+ "/d") = false →
  split_go "/d/" 0 cur (pre +:+ "/d/" +:+ rest) =
  (cur +:+ pre) :: split_go "/d/" 0 "" rest.
Proof. exact (split_go_first "/d" pre rest cur "/"). Qed.

Lemma split_slash_id (id t : string) :
  contains "/" id = false →
  t = "" ∨ (∃ t', t = String "/" t') →
  split "/" (id +:+ t) !! 0%nat = Some id.
Proof.
  intros Hid [->|[t' ->]]; unfold split.
  - rewrite append_nil_r. by rewrite (split_go_no_occurrence _ _ _ Hid).
  - by rewrite (split_slash_first id t' "" Hid).
Qed.

(** X16.  Lines 59 to 64.  A text without ["/d/"] is the id as it stands,
    stripped.  With ["/d/"] in it the two indexings of line 62 never fail,
    and the id that results holds no ["/"].  For an address of the form
    [pre/d/id] or [pre/d/id/rest], whose first ["/d/"] is the one shown, the
    result is [id]. *)
Theorem sheet_id_of_input_extracts_id user_input :
  let txt := strip user_input in
  (contains "/d/" txt = false → sheet_id_of_input user_input = txt) ∧
  (contains "/d/" txt = true →
     contains "/" (sheet_id_of_input user_input) = false ∧
     ∃ part, split "/d/" txt !! 1%nat = Some part ∧
             split "/" part !! 0%nat = Some (sheet_id_of_input user_input)) ∧
  (∀ pre id rest,
     txt = pre +:+ "/d/" +:+ id +:+ rest →
     contains "/d/" (pre +:+ "/d") = false →
     contains "/" id = false →
     rest = "" ∨ (∃ r, rest = String "/" r) →
     sheet_id_of_input user_input = id).
Proof.
  intros txt. unfold sheet_id_of_input. fold txt. split; [by intros ->|]. split.
  - intros Hd. rewrite Hd.
    destruct (split_go_contains "/d/" txt "" ltac:(done) Hd) as (p & part & l & Hsplit).
    destruct (split_slash_head part "") as (t & l' & Hpart & Ht).
    unfold split. rewrite Hsplit. simpl. rewrite Hpart. simpl.
    rewrite append_nil_l. split; [done|].
    exists part. by rewrite Hpart, append_nil_l.
  - intros pre id rest Htxt Hpre Hid Hrest.
    assert (contains "/d/" txt = true) as ->.
    { rewrite Htxt. clear. induction pre as [|a pre IH].
      - rewrite append_nil_l. unfold contains. destruct (id +:+ rest); done.
      - rewrite append_cons, contains_cons, IH. apply orb_true_r. }
    unfold split at 1. rewrite Htxt at 1.
    rewrite (split_d_first pre (id +:+ rest) "" Hpre).
    destruct (split_d_head id rest "" Hid Hrest) as (t & l & -> & Ht).
    simpl. rewrite !append_nil_l.
    by rewrite (split_slash_id id t Hid Ht).
Qed.

Lemma replace_go_cons (old new : string) k a s :
  replace_go old new k (String a s) =
  match k with
  | S k' => replace_go old new k' s
  | O =>
      if String.prefix old (String a s)
      then new +:+ replace_go old new (String.length old - 1) s
      else String a (replace_go old new 0 s)
  end.
Proof. done. Qed.

Lemma replace_no_occurrence (old new s : string) :
  contains old s = false → replace old new s = s.
Proof.
  unfold replace. induction s as [|a s IH]; [done|].
  rewrite contains_cons. intros [Hp Hc]%orb_false_elim.
  by rewrite replace_go_cons, Hp, (IH Hc).
Qed.

(** Replacing a pair of characters by one character that is neither of
    them leaves no such pair: none is left over, and none is formed where a
    replacement meets its neighbours. *)
Lemma replace_pair_none_left (x y z : ascii) (s : string) :
  z ≠ x → z ≠ y →
  let old := String x (String y "") in
  let new := String z "" in
  contains old (replace old new s) = false.
Proof.
  intros Hzx Hzy old new. unfold replace.
  assert (∀ n s, (String.length s ≤ n)%nat →
            contains old (replace_go old new 0 s) = false ∧
            ∀ t, replace_go old new 0 s = String y t → ∃ t', s = String y t')
    as Hall; [|by apply (Hall (String.length s))].
  clear s. induction n as [|n IH]; intros s Hlen.
  { destruct s; [|simpl in Hlen; lia]. by split. }
  destruct s as [|a s]; [by split|]. simpl in Hlen.
  rewrite replace_go_cons.
  destruct (String.prefix old (String a s)) eqn:Hp.
  - unfold old in Hp. simpl in Hp.
    destruct (ascii_dec x a) as [<-|]; [|done].
    destruct s as [|b s]; simpl in Hp; [done|].
    destruct (ascii_dec y b) as [<-|]; [|done].
    simpl in Hlen.
    change (String.length old - 1)%nat with 1%nat. rewrite replace_go_cons.
    destruct (IH s ltac:(lia)) as [Hc _].
    change (new +:+ replace_go old new 0 s)
      with (String z (replace_go old new 0 s)).
    split.
    + rewrite contains_cons, Hc. unfold old. simpl.
      by destruct (ascii_dec x z) as [->|].
    + by intros t [= ? _].
  - destruct (IH s ltac:(lia)) as [Hc Hy]. split; [|by intros t [= -> _]; eauto].
    rewrite contains_cons, Hc, orb_false_r.
    destruct (replace_go old new 0 s) as [|b t] eqn:Ht.
    { unfold old. simpl. by destruct (ascii_dec x a). }
    unfold old. simpl. destruct (ascii_dec x a) as [<-|]; [|done].
    destruct (ascii_dec y b) as [<-|]; [|done].
    destruct (Hy t eq_refl) as [t' ->].
    unfold old in Hp. simpl in Hp.
    destruct (ascii_dec x x); [|done]. by destruct (ascii_dec y y), t'.
Qed.

(** *** The private key *)

(** X17.  Lines 23 to 29: only the private key is touched, and no key is
    added when there is none; the key that comes out is the one that came in
    with every escaped newline replaced, so that no escaped newline is left
    in it; normalising twice is normalising once. *)
Theorem normalize_private_key_restores_newlines sa :
  (∀ k, k ≠ "private_key" → normalize_private_key sa !! k = sa !! k) ∧
  (sa !! "private_key" = None → normalize_private_key sa = sa) ∧
  (∀ pk, sa !! "private_key" = Some pk →
     normalize_private_key sa !! "private_key" =
       Some (replace escaped_newline real_newline pk)) ∧
  (∀ pk, normalize_private_key sa !! "private_key" = Some pk →
     contains escaped_newline pk = false) ∧
  normalize_private_key (normalize_private_key sa) = normalize_private_key sa.
Proof.
  assert (∀ s, contains escaped_newline (replace escaped_newline real_newline s) = false)
    as Hnone by (intros s; by apply replace_pair_none_left).
  assert (∀ pk, normalize_private_key sa !! "private_key" = Some pk →
            contains escaped_newline pk = false) as Hclean.
  { unfold normalize_private_key. intros pk.
    destruct (contains escaped_newline (default "" (sa !! "private_key"))) eqn:Hc.
    - rewrite lookup_insert_eq. by intros [= <-].
    - intros Hpk. by rewrite Hpk in Hc. }
  repeat split; [..|done|].
  - intros k Hk. unfold normalize_private_key.
    destruct (contains _ _); [|done]. by rewrite lookup_insert_ne.
  - intros Hnone'. unfold normalize_private_key. by rewrite Hnone'.
  - intros pk Hpk. unfold normalize_private_key. rewrite Hpk. simpl.
    destruct (contains escaped_newline pk) eqn:Hc; [by rewrite lookup_insert_eq|].
    by rewrite replace_no_occurrence.
  - unfold normalize_private_key at 1.
    destruct (normalize_private_key sa !! "private_key") as [pk|] eqn:Hpk; simpl.
    + by rewrite (Hclean pk eq_refl).
    + done.
Qed.

(** *** The sheet id *)

Lemma get_truthy_Some m k v :
  get_truthy m k = Some v ↔ m !! k = Some v ∧ truthy v = true.
Proof.
  unfold get_truthy. destruct (m !! k) as [w|]; [|by split; [|intros [? _]]].
  destruct (truthy w) eqn:Hw; split.
  - by intros [= <-].
  - by intros [[= <-] _].
  - done.
  - intros [[= <-] ?]. congruence.
Qed.

(** X18.  Lines 37 to 68: the id comes from the first source that has one
    that is not empty, in the order query parameter, top-level secret,
    [app] secret; such an id lets the script go on.  Without any, pressing
    the button with a text in the box stores the id taken from the text and
    reruns the script, and the run that follows returns that id; otherwise
    what an earlier run stored is returned. *)
Theorem resolve_sheet_id_priority qp s session_state use_btn user_input :
  let run := resolve_sheet_id qp s session_state use_btn user_input in
  (∀ sid, get_truthy qp "sheet_id" = Some sid → run = Continue (Some sid)) ∧
  (∀ sid, get_truthy qp "sheet_id" = None →
     get_truthy (top_level s) "SHEET_ID" = Some sid → run = Continue (Some sid)) ∧
  (∀ sid, get_truthy qp "sheet_id" = None →
     get_truthy (top_level s) "SHEET_ID" = None →
     get_truthy (app_block s) "SHEET_ID" = Some sid → run = Continue (Some sid)) ∧
  (get_truthy qp "sheet_id" = None →
   get_truthy (top_level s) "SHEET_ID" = None →
   get_truthy (app_block s) "SHEET_ID" = None →
   (use_btn = true → user_input ≠ "" →
      ∃ stored, run = Rerun stored ∧
        stored !! "manual_sheet_input" = Some (sheet_id_of_input user_input) ∧
        (∀ k, k ≠ "manual_sheet_input" → stored !! k = session_state !! k) ∧
        ∀ shown, resolve_sheet_id qp s stored false shown =
                 Continue (Some (sheet_id_of_input user_input))) ∧
   (use_btn = false ∨ user_input = "" →
      run = Continue (session_state !! "manual_sheet_input"))) ∧
  (∀ sid, run = Continue (Some sid) → usable_sheet_id (Some sid) = false →
     get_truthy qp "sheet_id" = None ∧
     get_truthy (top_level s) "SHEET_ID" = None ∧
     get_truthy (app_block s) "SHEET_ID" = None ∧
     session_state !! "manual_sheet_input" = Some "").
Proof.
  intros run. unfold run, resolve_sheet_id.
  destruct (get_truthy qp "sheet_id") as [q|] eqn:Hq.
  { apply get_truthy_Some in Hq as [_ Hq].
    split; [by intros ? [= <-]|]. split; [done|]. split; [done|]. split; [done|].
    intros sid [= <-]. simpl. by rewrite Hq. }
  destruct (get_truthy (top_level s) "SHEET_ID") as [t|] eqn:Ht.
  { apply get_truthy_Some in Ht as [_ Ht].
    split; [done|]. split; [by intros ? _ [= <-]|]. split; [done|]. split; [done|].
    intros sid [= <-]. simpl. by rewrite Ht. }
  destruct (get_truthy (app_block s) "SHEET_ID") as [a|] eqn:Ha.
  { apply get_truthy_Some in Ha as [_ Ha].
    split; [done|]. split; [done|]. split; [by intros ? _ _ [= <-]|]. split; [done|].
    intros sid [= <-]. simpl. by rewrite Ha. }
  split; [done|]. split; [done|]. split; [done|]. split.
  - intros _ _ _. split.
    + intros -> Hin. assert (truthy user_input = true) as -> by by destruct user_input.
      simpl. eexists. split; [done|]. rewrite lookup_insert_eq. split; [done|].
      split; [by intros k Hk; rewrite lookup_insert_ne|done].
    + intros [->| ->]; [done|]. by rewrite andb_false_r.
  - intros sid. destruct (use_btn && truthy user_input); [done|].
    intros [= Hs]. simpl. intros Hsid. repeat split; try done.
    rewrite Hs. by destruct sid.
Qed.

(** *** The worksheet names *)

(** X19.  Lines 70 to 90: each assignment overrides the ones before it, so
    a name comes from the last source that has one that is not empty, in the
    order query parameter, top-level secret, [app] secret (the reverse of the
    order for the sheet id), and is the default when there is none.  The two
    names are resolved apart, and neither is ever empty. *)
Theorem resolve_ws_names_priority qp s :
  let names := resolve_ws_names qp s in
  (∀ v, get_truthy (app_block s) "FORMULA_WS" = Some v → names.1 = v) ∧
  (get_truthy (app_block s) "FORMULA_WS" = None →
     (∀ v, get_truthy (top_level s) "FORMULA_WS" = Some v → names.1 = v) ∧
     (get_truthy (top_level s) "FORMULA_WS" = None →
        (∀ v, get_truthy qp "formula_ws" = Some v → names.1 = v) ∧
        (get_truthy qp "formula_ws" = None → names.1 = "FORMULA"))) ∧
  (∀ v, get_truthy (app_block s) "INVENTORY_WS" = Some v → names.2 = v) ∧
  (get_truthy (app_block s) "INVENTORY_WS" = None →
     (∀ v, get_truthy (top_level s) "INVENTORY_WS" = Some v → names.2 = v) ∧
     (get_truthy (top_level s) "INVENTORY_WS" = None →
        (∀ v, get_truthy qp "inventory_ws" = Some v → names.2 = v) ∧
        (get_truthy qp "inventory_ws" = None → names.2 = "INVENTORY"))) ∧
  truthy names.1 = true ∧ truthy names.2 = true.
Proof.
  intros names. unfold names, resolve_ws_names, override. simpl.
  assert (∀ m k d, truthy d = true → truthy (default d (get_truthy m k)) = true)
    as Htruthy.
  { intros m k d Hd. destruct (get_truthy m k) as [v|] eqn:Hv; [|done].
    by apply get_truthy_Some in Hv as [_ ?]. }
  split_and!; [| | | |by repeat apply Htruthy..].
  - by intros v ->.
  - intros ->. split; [by intros v ->|]. intros ->. by split; [intros v ->|intros ->].
  - by intros v ->.
  - intros ->. split; [by intros v ->|]. intros ->. by split; [intros v ->|intros ->].
Qed.

End App.

(** * Examples *)

(** The value that a call returned, for stating an example. *)
Ltac returned call :=
  exists (match call with Ok out => out | Raise _ => mk_output [] 0 [] end).



(** Stock is known for B only: A still appears, with On_Hand 0.0. *)
Lemma left_join_defaults_on_hand_example :
  let onhand := OnHandFrame [OnHand.mk (CStr "B") (CNum (Fin (Qc_of_Z 30)))] in
  let cases := Fin (Qc_of_Z 3) in
  ∃ out,
    compute example_parse_float example_comps onhand cases = Ok out ∧
    (∀ r, r ∈ display out ↔
       ∃ c, c ∈ example_comps ∧
         (((Comps.Component c ∉ right_keys onhand) ∧
           r = inventory_row example_parse_float cases (c, unmatched onhand)) ∨
          (∃ o, (Comps.Component c, o) ∈ right_rows onhand ∧
                r = inventory_row example_parse_float cases (c, o)))) ∧
    (∀ c, c ∈ example_comps →
       ∃ r, r ∈ display out ∧ Inv.Component r = Comps.Component c ∧
            Inv.UOM r = Comps.UOM c ∧
            Inv.Per_Case r = coerce0 example_parse_float (Comps.Per_Case c)) ∧
    (∀ c, c ∈ example_comps → Comps.Component c ∉ right_keys onhand →
       ∃ r, r ∈ display out ∧ Inv.Component r = Comps.Component c ∧
            Inv.On_Hand r = zero ∧
            Inv.Required r = num_mul (coerce0 example_parse_float (Comps.Per_Case c)) cases ∧
            Inv.Remaining r = num_sub zero (Inv.Required r)) ∧
    (∀ c o, c ∈ example_comps → (Comps.Component c, Some o) ∈ right_rows onhand →
       ∃ r, r ∈ display out ∧ Inv.Component r = Comps.Component c ∧
            Inv.On_Hand r = fillna zero (to_numeric_coerce example_parse_float o)) ∧
    (∀ r, r ∈ display out →
       is_nan (Inv.On_Hand r) = false ∧
       Inv.Required r = num_mul (Inv.Per_Case r) cases ∧
       Inv.Remaining r = num_sub (Inv.On_Hand r) (Inv.Required r)).
Proof.
  intros onhand cases.
  returned (compute example_parse_float example_comps onhand cases).
  split; [by vm_compute|].
  apply (left_join_defaults_on_hand example_parse_float example_comps onhand cases).
  by vm_compute.
Defined.

(** Without a repeated Component in the on-hand frame the display has the
    two rows of the two components. *)
Lemma display_one_row_per_component_example :
  ∃ out,
    compute example_parse_float example_comps example_onhand zero = Ok out ∧
    NoDup (right_keys example_onhand) ∧
    display out ≡ₚ
      (λ c, inventory_row example_parse_float zero
              (c, on_hand_cell_of example_onhand c)) <$> example_comps ∧
    length (display out) = length example_comps.
Proof.
  returned (compute example_parse_float example_comps example_onhand zero).
  assert (NoDup (right_keys example_onhand)) as Hnd.
  { apply NoDup_cons_2; [by intros ?%list_elem_of_singleton|apply NoDup_singleton]. }
  split; [by vm_compute|]. split; [done|].
  apply (proj1 (display_one_row_per_component example_parse_float)); [|done].
  by vm_compute.
Defined.

(** Decides a closed statement by evaluation. *)
Ltac by_evaluation :=
  match goal with
  | |- ?P => apply (bool_decide_unpack P); vm_compute; exact I
  end.


(** Loading [example_store]: no schema error, two components, and an empty
    UOM for both since the FORMULA sheet has no UOM column. *)
Lemma schema_error_iff_required_column_missing_example :
  let read := read_ws_df example_parse_float example_render_number in
  let load := load_data example_parse_float example_render_number "FORMULA" "INVENTORY" in
  let head_of := header example_render_number in
  ∃ formula inv,
    example_store !! "FORMULA" = Some example_formula_sheet ∧
    example_store !! "INVENTORY" = Some example_inventory_sheet ∧
    read example_formula_sheet = Ok formula ∧
    read example_inventory_sheet = Ok inv ∧
    (load example_store = Raise (Stopped SchemaError) ↔
       "Component" ∉ head_of example_formula_sheet ∨
       "Per_Case" ∉ head_of example_formula_sheet) ∧
    ("Component" ∈ head_of example_formula_sheet →
     "Per_Case" ∈ head_of example_formula_sheet →
       ∃ comps onhand,
         load example_store = Ok (comps, onhand) ∧
         length comps = length (data_rows example_render_number example_formula_sheet) ∧
         ("UOM" ∉ head_of example_formula_sheet →
            ∀ c, c ∈ comps → Comps.UOM c = CStr "") ∧
         ("UOM" ∈ head_of example_formula_sheet →
            Comps.UOM <$> comps = column formula "UOM")).
Proof.
  intros read load head_of.
  exists (match read example_formula_sheet with Ok df => df | Raise _ => [] end).
  exists (match read example_inventory_sheet with Ok df => df | Raise _ => [] end).
  repeat (split; [by vm_compute|]).
  apply (schema_error_iff_required_column_missing example_parse_float
           example_render_number "FORMULA" "INVENTORY" example_store
           example_formula_sheet example_inventory_sheet
           (match read example_formula_sheet with Ok df => df | Raise _ => [] end)
           (match read example_inventory_sheet with Ok df => df | Raise _ => [] end));
    by vm_compute.
Defined.


(** Writing [example_edited] and loading again: 10 and 0 were written, 10
    and 0 come back. *)
Lemma write_then_load_round_trip_example :
  let load := load_data example_parse_float example_render_number "FORMULA" "INVENTORY" in
  ∃ sh' comps onhand,
    write_onhand example_parse_float "INVENTORY" example_store example_edited = Ok sh' ∧
    load sh' = Ok (comps, onhand) ∧
    (∀ r, r ∈ example_edited →
       ∃ y, example_parse_float
              (example_render_number (coerce0 example_parse_float (Edited.On_Hand r)))
            = Some y ∧
            coerce0 example_parse_float (Edited.On_Hand r) = y) ∧
    Forall2 (λ r o, ∃ y, OnHand.On_Hand o = CNum y ∧
                         fillna zero (to_numeric_coerce example_parse_float
                                        (Edited.On_Hand r)) = y)
      example_edited onhand.
Proof.
  intros load.
  set (written := write_onhand example_parse_float "INVENTORY" example_store example_edited).
  exists (match written with Ok sh' => sh' | Raise _ => ∅ end).
  set (loaded := load (match written with Ok sh' => sh' | Raise _ => ∅ end)).
  exists (match loaded with Ok r => r.1 | Raise _ => [] end).
  exists (match loaded with Ok r => r.2 | Raise _ => [] end).
  assert (∀ r, r ∈ example_edited →
       ∃ y, example_parse_float
              (example_render_number (coerce0 example_parse_float (Edited.On_Hand r)))
            = Some y ∧
            coerce0 example_parse_float (Edited.On_Hand r) = y) as Hclose.
  { intros r [->|[->|[]%elem_of_nil]%elem_of_cons]%elem_of_cons;
      eexists; (split; [by vm_compute|]); by_evaluation. }
  split; [by vm_compute|]. split; [by vm_compute|]. split; [done|].
  apply (write_then_load_round_trip example_parse_float example_render_number
           "FORMULA" "INVENTORY" eq example_store
           (match written with Ok sh' => sh' | Raise _ => ∅ end) example_edited
           (match loaded with Ok r => r.1 | Raise _ => [] end));
    first [done|by vm_compute].
Defined.


(** * Counterexamples *)

(** C5 as first stated does not hold: the FORMULA sheet below lacks
    Per_Case, yet with no INVENTORY worksheet in the spreadsheet the script
    is stopped for the worksheet that cannot be opened (lines 135 to 139),
    before the schema check of line 145. *)
Lemma schema_check_not_reached_without_inventory_worksheet :
  let sh : gmap string worksheet := {[ "FORMULA" := [[SText "Component"]; [SText "A"]] ]} in
  let load := load_data example_parse_float example_render_number "FORMULA" "INVENTORY" in
  sh !! "FORMULA" = Some [[SText "Component"]; [SText "A"]] ∧
  ("Per_Case" ∉ header example_render_number [[SText "Component"]; [SText "A"]]) ∧
  load sh = Raise (Stopped InventoryWorksheetMissing) ∧
  load sh ≠ Raise (Stopped SchemaError).
Proof.
  intros sh load.
  assert (load sh = Raise (Stopped InventoryWorksheetMissing)) as Hload by by vm_compute.
  split; [by vm_compute|]. split; [by_evaluation|]. split; [done|].
  by rewrite Hload.
Defined.


(** * Further examples *)


(** The same stock before any order: nothing is required, nothing is
    short. *)
Lemma zero_order_shortages_example :
  ∃ out,
    compute example_parse_float example_comps example_onhand zero = Ok out ∧
    (∀ r, r ∈ display out → is_finite (Inv.Per_Case r) = true →
       Inv.Required r = zero ∧ Inv.Remaining r = Inv.On_Hand r) ∧
    (∀ r, r ∈ shortages out ↔
       r ∈ display out ∧ is_finite (Inv.Per_Case r) = true ∧
       num_ltb (Inv.On_Hand r) zero = true).
Proof.
  returned (compute example_parse_float example_comps example_onhand zero).
  split; [by vm_compute|].
  apply (zero_order_shortages example_parse_float example_comps example_onhand).
  by vm_compute.
Defined.



Lemma display_sorted_by_component_example :
  ∃ out,
    compute example_parse_float example_comps example_onhand (Fin (Qc_of_Z 6)) = Ok out ∧
    StronglySorted (λ r1 r2, cell_le (Inv.Component r1) (Inv.Component r2))
      (display out) ∧
    display out ≡ₚ
      joined example_parse_float example_comps example_onhand (Fin (Qc_of_Z 6)).
Proof.
  returned (compute example_parse_float example_comps example_onhand (Fin (Qc_of_Z 6))).
  split; [by vm_compute|].
  apply (display_sorted_by_component example_parse_float example_comps
           example_onhand (Fin (Qc_of_Z 6))).
  by vm_compute.
Defined.

(** B, short of an order of 7 cases, is short of an order of 8. *)
Lemma shortages_grow_with_order_example :
  ∃ o1 o2,
    compute example_parse_float example_comps example_onhand (Fin (Qc_of_Z 7)) = Ok o1 ∧
    compute example_parse_float example_comps example_onhand (Fin (Qc_of_Z 8)) = Ok o2 ∧
    (Qc_of_Z 7 ≤ Qc_of_Z 8)%Qc ∧
    (∀ c, c ∈ example_comps →
       num_ltb (coerce0 example_parse_float (Comps.Per_Case c)) zero = false) ∧
    ∀ r1, r1 ∈ shortages o1 →
      ∃ r2, r2 ∈ shortages o2 ∧
        Inv.Component r2 = Inv.Component r1 ∧ Inv.UOM r2 = Inv.UOM r1 ∧
        Inv.On_Hand r2 = Inv.On_Hand r1 ∧ Inv.Per_Case r2 = Inv.Per_Case r1.
Proof.
  returned (compute example_parse_float example_comps example_onhand (Fin (Qc_of_Z 7))).
  returned (compute example_parse_float example_comps example_onhand (Fin (Qc_of_Z 8))).
  assert (∀ c, c ∈ example_comps →
            num_ltb (coerce0 example_parse_float (Comps.Per_Case c)) zero = false) as Hpc.
  { intros c [->|[->|[]%elem_of_nil]%elem_of_cons]%elem_of_cons; by vm_compute. }
  assert (Qc_of_Z 7 ≤ Qc_of_Z 8)%Qc as Hle by by vm_compute.
  split; [by vm_compute|]. split; [by vm_compute|]. split; [done|]. split; [done|].
  apply (shortages_grow_with_order example_parse_float example_comps example_onhand
           (Qc_of_Z 7) (Qc_of_Z 8)); first [done|by vm_compute].
Defined.

(** The grid of the example, untouched, gives the results of the loaded
    stock. *)
Lemma unedited_grid_same_results_example :
  ∃ base,
    NoDup (Comps.Component <$> example_comps) ∧
    base_grid example_parse_float example_comps example_stock = Ok base ∧
    compute example_parse_float example_comps (edited_onhand base) (Fin (Qc_of_Z 6)) =
    compute example_parse_float example_comps (OnHandFrame example_stock) (Fin (Qc_of_Z 6)).
Proof.
  exists (match base_grid example_parse_float example_comps example_stock with
          | Ok base => base
          | Raise _ => []
          end).
  assert (NoDup (Comps.Component <$> example_comps)) as Hnd by by_evaluation.
  split; [done|]. split; [by vm_compute|].
  apply (unedited_grid_same_results example_parse_float example_comps example_stock);
    [done|by vm_compute].
Defined.

(** The two rows of each sheet the other way round. *)
Lemma row_order_is_irrelevant_example :
  ∃ out,
    compute example_parse_float example_comps (OnHandFrame example_stock)
      (Fin (Qc_of_Z 6)) = Ok out ∧
    ∃ out',
      compute example_parse_float (reverse example_comps)
        (OnHandFrame (reverse example_stock)) (Fin (Qc_of_Z 6)) = Ok out' ∧
      max_sellable out' = max_sellable out ∧
      display out' ≡ₚ display out ∧
      shortages out' ≡ₚ shortages out.
Proof.
  returned (compute example_parse_float example_comps (OnHandFrame example_stock)
              (Fin (Qc_of_Z 6))).
  split; [by vm_compute|].
  apply (row_order_is_irrelevant example_parse_float example_comps
           (reverse example_comps) example_stock (reverse example_stock));
    [apply Permutation_swap..|by vm_compute].
Defined.


Lemma loaded_components_sort_example :
  let load := load_data example_parse_float example_render_number "FORMULA" "INVENTORY" in
  ∃ comps onhand,
    load example_store = Ok (comps, onhand) ∧
    ∀ stock cases, compute example_parse_float comps stock cases ≠ Raise TypeError.
Proof.
  intros load.
  set (loaded := load example_store).
  exists (match loaded with Ok r => r.1 | Raise _ => [] end).
  exists (match loaded with Ok r => r.2 | Raise _ => [] end).
  split; [by vm_compute|].
  apply (loaded_components_sort example_parse_float example_render_number
           "FORMULA" "INVENTORY"
           (match loaded with Ok r => r.1 | Raise _ => [] end)
           (match loaded with Ok r => r.2 | Raise _ => [] end) example_store).
  by vm_compute.
Defined.

(** Components numbered 1 and 2 in FORMULA against a component named A in
    INVENTORY: the sheets load, the join raises. *)
Lemma numeric_names_against_text_names_example :
  let load := load_data example_parse_float example_render_number "FORMULA" "INVENTORY" in
  ∃ fws iws comps onhand,
    load example_numbered_store = Ok (comps, onhand) ∧
    example_numbered_store !! "FORMULA" = Some fws ∧
    example_numbered_store !! "INVENTORY" = Some iws ∧
    header example_render_number fws !! 0%nat = Some "Component" ∧
    header example_render_number iws !! 0%nat = Some "Component" ∧
    "On_Hand" ∈ header example_render_number iws ∧
    data_rows example_render_number fws ≠ [] ∧
    data_rows example_render_number iws ≠ [] ∧
    (is_Some (mapM example_parse_float
                ((λ row : list string, nth 0 row "") <$> data_rows example_render_number fws)) ↔
     mapM example_parse_float
       ((λ row : list string, nth 0 row "") <$> data_rows example_render_number iws) = None) ∧
    base_grid example_parse_float comps onhand = Raise ValueError ∧
    ∀ cases, compute example_parse_float comps (OnHandFrame onhand) cases = Raise ValueError.
Proof.
  intros load.
  set (loaded := load example_numbered_store).
  exists (default [] (example_numbered_store !! "FORMULA")).
  exists (default [] (example_numbered_store !! "INVENTORY")).
  exists (match loaded with Ok r => r.1 | Raise _ => [] end).
  exists (match loaded with Ok r => r.2 | Raise _ => [] end).
  assert ("On_Hand" ∈ header example_render_number
            (default [] (example_numbered_store !! "INVENTORY"))) as Hin
    by by_evaluation.
  assert (is_Some (mapM example_parse_float
            ((λ row : list string, nth 0 row "") <$>
               data_rows example_render_number
                 (default [] (example_numbered_store !! "FORMULA")))) ↔
          mapM example_parse_float
            ((λ row : list string, nth 0 row "") <$>
               data_rows example_render_number
                 (default [] (example_numbered_store !! "INVENTORY"))) = None) as Hkinds.
  { split; intros _; [by vm_compute|]. vm_compute. by eexists. }
  split; [by vm_compute|]. split; [by vm_compute|]. split; [by vm_compute|].
  split; [by vm_compute|]. split; [by vm_compute|]. split; [done|].
  split; [by vm_compute|]. split; [by vm_compute|]. split; [done|].
  apply (numeric_names_against_text_names example_parse_float example_render_number
           "FORMULA" "INVENTORY" example_numbered_store
           (default [] (example_numbered_store !! "FORMULA"))
           (default [] (example_numbered_store !! "INVENTORY"))
           (match loaded with Ok r => r.1 | Raise _ => [] end)
           (match loaded with Ok r => r.2 | Raise _ => [] end) 0 0);
    first [done|by vm_compute].
Defined.

(** The address of a sheet as the browser shows it. *)
Lemma sheet_id_of_input_extracts_id_example :
  sheet_id_of_input (λ s, s)
    "https://docs.google.com/spreadsheets/d/1ivuxCDfMu/edit#gid=0" = "1ivuxCDfMu".
Proof.
  apply (proj2 (proj2 (sheet_id_of_input_extracts_id (λ s, s)
           "https://docs.google.com/spreadsheets/d/1ivuxCDfMu/edit#gid=0"))
         "https://docs.google.com/spreadsheets" "1ivuxCDfMu" "/edit#gid=0");
    [done|by vm_compute|by vm_compute|right; by eexists].
Defined.

(** Orders of 6 and of 60 cases against the same stock: 5 cases can be
    sold either way. *)
Lemma max_sellable_independent_of_cases_example :
  ∃ o1 o2,
    compute example_parse_float example_comps example_onhand (Fin (Qc_of_Z 6)) = Ok o1 ∧
    compute example_parse_float example_comps example_onhand (Fin (Qc_of_Z 60)) = Ok o2 ∧
    max_sellable o1 = max_sellable o2.
Proof.
  returned (compute example_parse_float example_comps example_onhand (Fin (Qc_of_Z 6))).
  returned (compute example_parse_float example_comps example_onhand (Fin (Qc_of_Z 60))).
  split; [by vm_compute|]. split; [by vm_compute|].
  apply (proj2 (max_sellable_independent_of_cases example_parse_float example_comps
                  example_onhand (Fin (Qc_of_Z 6)) (Fin (Qc_of_Z 60))));
    by vm_compute.
Defined.



(** A key pasted with its newlines escaped. *)
Lemma normalize_private_key_restores_newlines_example :
  let pasted := "-----BEGIN" +:+ escaped_newline +:+ "MIIE" +:+ escaped_newline +:+ "-----END" in
  let sa : gmap string string := {[ "private_key" := pasted; "client_email" := "a@b" ]} in
  normalize_private_key sa !! "private_key" =
    Some ("-----BEGIN" +:+ real_newline +:+ "MIIE" +:+ real_newline +:+ "-----END") ∧
  normalize_private_key sa !! "client_email" = Some "a@b".
Proof.
  intros pasted sa. split.
  - rewrite (proj1 (proj2 (proj2 (normalize_private_key_restores_newlines sa))) pasted);
      by vm_compute.
  - by rewrite (proj1 (normalize_private_key_restores_newlines sa) "client_email").
Defined.

(** No id is configured; an address is pasted and the button pressed, and
    the run after the rerun has the id. *)
Lemma resolve_sheet_id_priority_example :
  let s := mk_secrets ∅ ∅ None in
  let pasted := "https://docs.google.com/spreadsheets/d/1ivuxCDfMu/edit" in
  ∃ stored,
    resolve_sheet_id (λ s, s) ∅ s ∅ true pasted = Rerun stored ∧
    resolve_sheet_id (λ s, s) ∅ s stored false pasted = Continue (Some "1ivuxCDfMu").
Proof.
  intros s pasted.
  assert (get_truthy (∅ : gmap string string) "sheet_id" = None) as Hq
    by by vm_compute.
  assert (get_truthy (top_level s) "SHEET_ID" = None) as Ht by by vm_compute.
  assert (get_truthy (app_block s) "SHEET_ID" = None) as Ha by by vm_compute.
  assert (pasted ≠ "") as Hne by done.
  destruct (resolve_sheet_id_priority (λ s, s) ∅ s ∅ true pasted)
    as (_ & _ & _ & Hmanual & _).
  destruct (proj1 (Hmanual Hq Ht Ha) eq_refl Hne)
    as (stored & Hrun & _ & _ & Hnext).
  exists stored. split; [done|]. rewrite Hnext. by vm_compute.
Defined.

(** A query parameter and a secret both name the FORMULA worksheet: the
    secret is used. *)
Lemma resolve_ws_names_priority_example :
  let qp : gmap string string := {[ "formula_ws" := "FromQuery" ]} in
  let s := mk_secrets {[ "FORMULA_WS" := "FromSecret" ]} ∅ None in
  (resolve_ws_names qp s).1 = "FromSecret" ∧
  (resolve_ws_names qp s).2 = "INVENTORY".
Proof.
  intros qp s.
  assert (get_truthy (app_block s) "FORMULA_WS" = None) as Haf by by vm_compute.
  assert (get_truthy (top_level s) "FORMULA_WS" = Some "FromSecret") as Htf
    by by vm_compute.
  assert (get_truthy (app_block s) "INVENTORY_WS" = None) as Hai by by vm_compute.
  assert (get_truthy (top_level s) "INVENTORY_WS" = None) as Hti by by vm_compute.
  assert (get_truthy qp "inventory_ws" = None) as Hqi by by vm_compute.
  destruct (resolve_ws_names_priority qp s) as (_ & Hf & _ & Hi & _).
  split.
  - exact (proj1 (Hf Haf) _ Htf).
  - exact (proj2 (proj2 (Hi Hai) Hti) Hqi).
Defined.

(** FORMULA lists A twice, INVENTORY once: the grid has two rows, the
    display four. *)
Lemma repeated_names_multiply_rows_example :
  let comps :=
    [Comps.mk (CStr "A") (CNum (Fin (Qc_of_Z 2))) (CStr "kg");
     Comps.mk (CStr "A") (CNum (Fin (Qc_of_Z 3))) (CStr "kg")] in
  let onhand := [OnHand.mk (CStr "A") (CNum (Fin (Qc_of_Z 10)))] in
  ∃ base out,
    NoDup (OnHand.Component <$> onhand) ∧
    ¬ NoDup (Comps.Component <$> comps) ∧
    base_grid example_parse_float comps onhand = Ok base ∧
    compute example_parse_float comps (edited_onhand base) (Fin (Qc_of_Z 1)) = Ok out ∧
    length base = length comps ∧ (length comps < length (display out))%nat.
Proof.
  intros comps onhand.
  set (grid := match base_grid example_parse_float comps onhand with
               | Ok base => base
               | Raise _ => []
               end).
  exists grid.
  returned (compute example_parse_float comps (edited_onhand grid) (Fin (Qc_of_Z 1))).
  assert (NoDup (OnHand.Component <$> onhand)) as Hnd by by_evaluation.
  assert (¬ NoDup (Comps.Component <$> comps)) as Hdup by by_evaluation.
  split; [done|]. split; [done|]. split; [by vm_compute|]. split; [by vm_compute|].
  apply (repeated_names_multiply_rows example_parse_float comps onhand grid
           (Fin (Qc_of_Z 1))); first [done|by vm_compute].
Defined.
